(** * validate-workflow-pinning: a shallow embedding of [validate.py]

    The script scans GitHub workflow and composite-action files for
    [uses:] statements and checks that each one is pinned to a full
    40-character commit SHA.  This development embeds the three functions
    of [.github/actions/validate-workflow-pinning/validate.py]
    ([get_uses_statements], [validate_workflow_files], [main]) together
    with the pieces of Python they rely on (truthiness, [str.split],
    [re.match], attribute errors on values of the wrong dynamic type), and
    proves properties of them.

    Conventions.
    - A Python [str] is a list of Unicode code points ([list N]).
    - What the script reads from outside (environment variables, the file
      system, the result of [YAML().load]) is a record [world] of oracles.
    - What the script prints is a list of [event]s; a function that prints
      or raises lives in the monad [io]. *)

From Stdlib Require Import List ZArith NArith Bool Lia String Ascii.
Import ListNotations.
Open Scope list_scope.

(* ================================================================== *)
(** ** Python strings *)

Module Py.

(** A [str]: its code points, in order. *)
Definition str := list N.

(** The code points of an ASCII literal. *)
Definition u (s : string) : str := map N_of_ascii (list_ascii_of_string s).

Definition str_eq_dec : forall a b : str, {a = b} + {a <> b} :=
  list_eq_dec N.eq_dec.

Definition str_eqb (a b : str) : bool := if str_eq_dec a b then true else false.

(** [x in xs] for a list of strings. *)
Definition mem (x : str) (xs : list str) : bool := existsb (str_eqb x) xs.

(** [s.startswith(p)]. *)
Fixpoint startswith (p s : str) : bool :=
  match p, s with
  | [], _ => true
  | _ :: _, [] => false
  | a :: p', b :: s' => N.eqb a b && startswith p' s'
  end.

(** [needle in hay] for two strings: substring search. *)
Fixpoint contains (needle hay : str) : bool :=
  startswith needle hay ||
  match hay with
  | [] => false
  | _ :: hay' => contains needle hay'
  end.

(** [c.isspace()]: the code points [str.split()] and [str.strip()] treat
    as white space. *)
Definition isspace (c : N) : bool :=
  ((9 <=? c) && (c <=? 13) || (28 <=? c) && (c <=? 32) ||
   (c =? 133) || (c =? 160) || (c =? 5760) ||
   (8192 <=? c) && (c <=? 8202) || (c =? 8232) || (c =? 8233) ||
   (c =? 8239) || (c =? 8287) || (c =? 12288))%N.

(** [s.split()]: the maximal runs of non-space characters.  [cur] is the
    run being read, reversed. *)
Fixpoint split_from (cur s : str) : list str :=
  match s with
  | [] => match cur with [] => [] | _ => [rev cur] end
  | c :: s' =>
      if isspace c
      then match cur with
           | [] => split_from [] s'
           | _ => rev cur :: split_from [] s'
           end
      else split_from (c :: cur) s'
  end.

Definition split (s : str) : list str := split_from [] s.

Fixpoint lstrip (s : str) : str :=
  match s with
  | c :: s' => if isspace c then lstrip s' else s
  | [] => []
  end.

(** [s.strip()]. *)
Definition strip (s : str) : str := rev (lstrip (rev (lstrip s))).

(** [s.lower()] on the letters A-Z.  The only use is the membership test
    of [main] in ("true", "1", "yes"), and no code point outside A-Z
    lowercases to a letter of those words. *)
Definition lower (s : str) : str :=
  map (fun c => if ((65 <=? c) && (c <=? 90))%N then (c + 32)%N else c) s.

(** [str(n)] for a non-negative integer. *)
Fixpoint digits (d : Decimal.uint) : str :=
  match d with
  | Decimal.Nil => []
  | Decimal.D0 d => 48%N :: digits d
  | Decimal.D1 d => 49%N :: digits d
  | Decimal.D2 d => 50%N :: digits d
  | Decimal.D3 d => 51%N :: digits d
  | Decimal.D4 d => 52%N :: digits d
  | Decimal.D5 d => 53%N :: digits d
  | Decimal.D6 d => 54%N :: digits d
  | Decimal.D7 d => 55%N :: digits d
  | Decimal.D8 d => 56%N :: digits d
  | Decimal.D9 d => 57%N :: digits d
  end.

Definition str_of_nat (n : nat) : str := digits (Nat.to_uint n).

End Py.
Import Py.

(* ================================================================== *)
(** ** Regular expressions, as [re.match] runs them *)

Module Re.

(** What matches one character. *)
Inductive atom :=
| Dot                                  (* [.]: anything but a newline *)
| Lit (c : N)                          (* a literal character *)
| CharSet (ranges : list (N * N)).     (* [[a-f0-9]]: a union of ranges *)

Inductive item :=
| Caret                  (* [^] *)
| Dollar                 (* [$] *)
| One (a : atom)
| Plus (a : atom)        (* [a+] *)
| Repeat (a : atom) (n : nat).   (* [a{n}] *)

(** A pattern is a sequence of items. *)
Definition regex := list item.

Definition newline : N := 10.

Definition atom_match (a : atom) (c : N) : bool :=
  match a with
  | Dot => negb (N.eqb c newline)
  | Lit d => N.eqb c d
  | CharSet ranges => existsb (fun r => (fst r <=? c) && (c <=? snd r))%N ranges
  end.

(** [$] without [re.MULTILINE]: at the end of the string, or just before
    a newline that is the last character of the string. *)
Definition at_end (s : str) : bool :=
  match s with
  | [] => true
  | [c] => N.eqb c newline
  | _ => false
  end.

(** [a*] followed by the continuation [k], longest repetition first. *)
Fixpoint greedy (a : atom) (k : str -> bool) (s : str) : bool :=
  match s with
  | c :: s' => (atom_match a c && greedy a k s') || k s
  | [] => k []
  end.

(** [a{n}] followed by the continuation [k]. *)
Fixpoint exactly (a : atom) (n : nat) (k : str -> bool) (s : str) : bool :=
  match n with
  | O => k s
  | S n' =>
      match s with
      | c :: s' => atom_match a c && exactly a n' k s'
      | [] => false
      end
  end.

(** Does the pattern match some prefix of [s]?  [start] tells whether the
    position is the beginning of the subject string. *)
Fixpoint match_items (r : regex) (start : bool) (s : str) : bool :=
  match r with
  | [] => true
  | Caret :: r' => start && match_items r' start s
  | Dollar :: r' => at_end s && match_items r' start s
  | One a :: r' =>
      match s with
      | c :: s' => atom_match a c && match_items r' false s'
      | [] => false
      end
  | Plus a :: r' =>
      match s with
      | c :: s' => atom_match a c && greedy a (match_items r' false) s'
      | [] => false
      end
  | Repeat a n :: r' =>
      exactly a n (match_items r' (start && Nat.eqb n 0)) s
  end.

(** [bool(pattern.match(s))]: a match anchored at the start of [s]. *)
Definition re_match (r : regex) (s : str) : bool := match_items r true s.

End Re.
Import Re.

(** [SHA_PATTERN = re.compile(r".+@[a-f0-9]{40}$")] (line 26). *)
Definition at_sign : N := 64.
Definition lower_hex_set : atom := CharSet [(97, 102); (48, 57)]%N.

Definition SHA_PATTERN : regex :=
  [Plus Dot; One (Lit at_sign); Repeat lower_hex_set 40; Dollar].

(** The pattern as the specification writes it: [^.+@[0-9a-f]{40}$]. *)
Definition spec_pattern : regex :=
  [Caret; Plus Dot; One (Lit at_sign); Repeat (CharSet [(48, 57); (97, 102)]%N) 40; Dollar].

(** A lowercase hexadecimal digit, and a hexadecimal digit of either case. *)
Definition lower_hex (c : N) : bool :=
  ((48 <=? c) && (c <=? 57) || (97 <=? c) && (c <=? 102))%N.

Definition any_hex (c : N) : bool :=
  (lower_hex c || (65 <=? c) && (c <=? 70))%N.

Fixpoint take_while (p : N -> bool) (s : str) : str :=
  match s with
  | c :: s' => if p c then c :: take_while p s' else []
  | [] => []
  end.

(** The trailing hex run of a string: its longest suffix of hexadecimal
    digits (of either case). *)
Definition trailing_hex (s : str) : str := rev (take_while any_hex (rev s)).

(* ================================================================== *)
(** ** The tree [YAML().load] returns *)

Module Yaml.

(** Scalars.  (Floats and timestamps never reach a [uses:] field of a
    workflow and are left out.) *)
Inductive scalar :=
| SNull
| SBool (b : bool)
| SInt (z : Z)
| SStr (s : str).

(** A node of the tree.  A mapping keeps its entries in source order; an
    entry is [(key, lc, value)], where [lc] is the 0-based line of the key
    as [CommentedMap.lc.data] records it, or [None] when the mapping has
    no position for that key. *)
#[local] Set Warnings "-register-all".
Inductive yaml :=
| Scalar (v : scalar)
| Seq (items : list yaml)
| Map (entries : list (scalar * (option nat * yaml))).

Definition entries := list (scalar * (option nat * yaml)).

Definition scalar_eqb (a b : scalar) : bool :=
  match a, b with
  | SNull, SNull => true
  | SBool x, SBool y => Bool.eqb x y
  | SInt x, SInt y => Z.eqb x y
  | SStr x, SStr y => str_eqb x y
  | _, _ => false
  end.

(** The entry a string key selects, if any. *)
Fixpoint find_key (k : str) (m : entries) : option (option nat * yaml) :=
  match m with
  | [] => None
  | (k', e) :: m' => if scalar_eqb k' (SStr k) then Some e else find_key k m'
  end.

(** [m.get(k)], as an option. *)
Definition lookup (k : str) (m : entries) : option yaml :=
  option_map snd (find_key k m).

(** [m.get(k, default)]. *)
Definition get (k : str) (default : yaml) (m : entries) : yaml :=
  match lookup k m with
  | Some v => v
  | None => default
  end.

(** [bool(v)]. *)
Definition truthy (v : yaml) : bool :=
  match v with
  | Scalar SNull => false
  | Scalar (SBool b) => b
  | Scalar (SInt z) => negb (Z.eqb z 0)
  | Scalar (SStr s) => match s with [] => false | _ => true end
  | Seq items => match items with [] => false | _ => true end
  | Map m => match m with [] => false | _ => true end
  end.

Definition is_mapping (v : yaml) : bool :=
  match v with
  | Map _ => true
  | _ => false
  end.

End Yaml.
Import Yaml.

(* ================================================================== *)
(** ** Exceptions, output, and the monad of the script *)

(** An uncaught exception, with the line of [validate.py] that raises it. *)
Inductive exn :=
| UnboundLocalError (line : nat)
| AttributeError (line : nat)
| TypeError (line : nat)
| OverflowError (line : nat).

Inductive outcome (A : Type) :=
| Returned (a : A)
| Raised (e : exn).
Arguments Returned {A} a.
Arguments Raised {A} e.

(** One call of [print]. *)
Inductive event :=
| PrintChecking                                         (* line 85 *)
| PrintFilesToLookAt (files : list str)                 (* line 96 *)
| WarnErrorProcessing (file_path message : str)         (* line 45, stderr *)
| PrintIgnoring (file_path : str) (line_num : nat) (uses_value : str)   (* line 115 *)
| PrintNotPinned (file_path : str) (line_num : nat) (uses_value : str)  (* line 121 *)
| PrintSomeWorkflows                                    (* line 126 *)
| PrintBestPractice                                     (* line 127 *)
| PrintAllPinned.                                       (* line 134 *)

(** The text of the two per-reference lines. *)
Definition location (file_path : str) (line_num : nat) : str :=
  u "[" ++ file_path ++ u ":" ++ str_of_nat line_num ++ u "] ".

Definition render (e : event) : option str :=
  match e with
  | PrintIgnoring f n v =>
      Some (location f n ++ u "Ignoring allowed-unpinned: " ++ v)
  | PrintNotPinned f n v =>
      Some (location f n ++ [10060%N] ++ u " ERROR: Not pinned using commit SHA: " ++ v)
  | _ => None
  end.

(** A computation that may print and may raise: the lines printed, in
    order, and how it ended. *)
Definition io (A : Type) : Type := (list event * outcome A)%type.

Definition ret {A} (a : A) : io A := ([], Returned a).
Definition raise {A} (e : exn) : io A := ([], Raised e).
Definition tell (es : list event) : io unit := (es, Returned tt).
Definition lift {A} (o : outcome A) : io A := ([], o).

Definition bind {A B} (c : io A) (k : A -> io B) : io B :=
  match c with
  | (out, Returned a) => (out ++ fst (k a), snd (k a))
  | (out, Raised e) => (out, Raised e)
  end.

Definition obind {A B} (c : outcome A) (k : A -> outcome B) : outcome B :=
  match c with
  | Returned a => k a
  | Raised e => Raised e
  end.

Declare Scope io_scope.
Delimit Scope io_scope with io.
Notation "x <- c ;; k" := (bind c (fun x => k))
  (at level 61, c at next level, right associativity) : io_scope.
Notation "c ;; k" := (bind c (fun _ => k))
  (at level 61, right associativity) : io_scope.
Notation "x <~ c ;; k" := (obind c (fun x => k))
  (at level 61, c at next level, right associativity) : io_scope.
Open Scope io_scope.

(** What the script reads from outside. *)
Record world := {
  environ : str -> option str;        (* [os.environ.get] *)
  isfile : str -> bool;               (* [os.path.isfile] *)
  isdir : str -> bool;                (* [os.path.isdir] on a path *)
  isdir_fd : Z -> option bool;        (* [os.path.isdir] on a file descriptor;
                                         [None]: the integer is out of range *)
  yaml_load : str -> str + yaml;      (* [open] then [YAML().load]; [inl e]:
                                         one of them raised, [str(e)] is [e] *)
  rglob_yml : str -> list str         (* [str(p) for p in Path(d).rglob("*.yml")] *)
}.

(* ================================================================== *)
(** ** [get_uses_statements] (lines 29-68) *)

Definition uses_statements := list (yaml * nat).

(** Lines 61-65: the 1-based line of the [uses] key, 0 when the mapping
    records no position for it. *)
Definition line_num_of (step : entries) : nat :=
  match find_key (u "uses") step with
  | Some (Some line, _) => line + 1
  | _ => 0
  end.

(** Lines 59-66, for one step that is a mapping. *)
Definition step_uses (step : entries) : uses_statements :=
  let uses_value := get (u "uses") (Scalar SNull) step in
  if truthy uses_value then [(uses_value, line_num_of step)] else [].

(** The inner loop (lines 58-66) over the steps of one container.  A step
    that is not a mapping has no [.get] (line 59). *)
Fixpoint scan_steps (steps : list yaml) : outcome uses_statements :=
  match steps with
  | [] => Returned []
  | Map step :: rest =>
      found <~ scan_steps rest ;;
      Returned (step_uses step ++ found)
  | _ :: _ => Raised (AttributeError 59)
  end.

(** What [for step in v] iterates over (line 58): the items of a sequence,
    the keys of a mapping, the characters of a string; other scalars are
    not iterable. *)
Definition iterate (v : yaml) : outcome (list yaml) :=
  match v with
  | Seq items => Returned items
  | Map m => Returned (map (fun e => Scalar (fst e)) m)
  | Scalar (SStr s) => Returned (map (fun c => Scalar (SStr [c])) s)
  | Scalar _ => Raised (TypeError 58)
  end.

(** Line 58 for one step container: [step_data.get("steps", [])] needs a
    mapping. *)
Definition scan_container (step_data : yaml) : outcome uses_statements :=
  match step_data with
  | Map m =>
      steps <~ iterate (get (u "steps") (Seq []) m) ;;
      scan_steps steps
  | _ => Raised (AttributeError 58)
  end.

(** The outer loop (line 57). *)
Fixpoint scan_containers (step_operations : list yaml) : outcome uses_statements :=
  match step_operations with
  | [] => Returned []
  | step_data :: rest =>
      found <~ scan_container step_data ;;
      more <~ scan_containers rest ;;
      Returned (found ++ more)
  end.

(** Lines 54-56: the containers to scan.  [content] is a mapping with a
    [runs] or a [jobs] key here; [content["jobs"].values()] needs a
    mapping. *)
Definition step_operations (content : entries) : outcome (list yaml) :=
  match lookup (u "runs") content with
  | Some runs => Returned [runs]
  | None =>
      match lookup (u "jobs") content with
      | Some (Map jobs) => Returned (map (fun e => snd (snd e)) jobs)
      | Some _ => Raised (AttributeError 55)
      | None => Returned []
      end
  end.

(** Lines 47-68, once [content] is bound. *)
Definition uses_of_content (content : yaml) : outcome uses_statements :=
  if negb (truthy content) then Returned []              (* line 48, [not content] *)
  else
    match content with
    | Map m =>
        match lookup (u "jobs") m, lookup (u "runs") m with
        | None, None => Returned []                      (* line 49 *)
        | _, _ =>
            ops <~ step_operations m ;;
            scan_containers ops
        end
    | _ => Raised (AttributeError 48)                    (* [content.keys()] *)
    end.

(** The whole function.  When [open] or [yaml.load] raises, the handler
    of lines 44-45 prints a warning and falls through to line 48, where
    [content] has never been assigned. *)
Definition get_uses_statements (w : world) (file_path : str) : io uses_statements :=
  match yaml_load w file_path with
  | inl e =>
      tell [WarnErrorProcessing file_path e] ;;
      raise (UnboundLocalError 48)
  | inr content => lift (uses_of_content content)
  end.

(* ================================================================== *)
(** ** [validate_workflow_files] (lines 71-136) *)

(** The four ways the loop body of lines 106-123 disposes of a reference
    string. *)
Inductive disposition := Local | Pinned | Allowed | Violation.

(** Lines 108-120 for a reference that is a string. *)
Definition classify (w : world) (allow_unpinned : list str) (uses_value : str)
  : disposition :=
  if isdir w uses_value then Local                          (* line 108 *)
  else if re_match SHA_PATTERN uses_value then Pinned       (* line 111 *)
  else if mem uses_value allow_unpinned then Allowed        (* line 114 *)
  else Violation.                                           (* line 120 *)

(** Lines 108-112 for a truthy reference that is not a string:
    [os.path.isdir] takes an integer for a file descriptor and raises on a
    sequence or a mapping; [SHA_PATTERN.match] raises on anything but a
    string. *)
Definition check_non_string (w : world) (fail : bool) (fd : option Z) : io bool :=
  match fd with
  | None => raise (TypeError 108)
  | Some z =>
      match isdir_fd w z with
      | None => raise (OverflowError 108)
      | Some true => ret fail
      | Some false => raise (TypeError 111)
      end
  end.

(** The loop body, lines 106-123: [fail] in, [fail] out. *)
Definition check_use (w : world) (allow_unpinned : list str) (file_path : str)
    (fail : bool) (use : yaml * nat) : io bool :=
  let (uses_value, line_num) := use in
  match uses_value with
  | Scalar (SStr s) =>
      match classify w allow_unpinned s with
      | Local => ret fail
      | Pinned => ret fail
      | Allowed =>
          tell [PrintIgnoring file_path line_num s] ;;
          ret fail
      | Violation =>
          tell [PrintNotPinned file_path line_num s] ;;
          ret true
      end
  | Scalar (SInt z) => check_non_string w fail (Some z)
  | Scalar (SBool b) => check_non_string w fail (Some (Z.b2z b))
  | Scalar SNull => check_non_string w fail None
  | Seq _ => check_non_string w fail None
  | Map _ => check_non_string w fail None
  end.

(** The loop of line 106 over the references of one file. *)
Fixpoint check_uses (w : world) (allow_unpinned : list str) (file_path : str)
    (uses : uses_statements) (fail : bool) : io bool :=
  match uses with
  | [] => ret fail
  | use :: rest =>
      fail' <- check_use w allow_unpinned file_path fail use ;;
      check_uses w allow_unpinned file_path rest fail'
  end.

(** The test of line 99: the path names neither directory. *)
Definition wrong_location (file_path : str) : bool :=
  negb (contains (u ".github/workflows") file_path) &&
  negb (contains (u ".github/actions") file_path).

(** Lines 99-104: is the candidate skipped? *)
Definition skipped (w : world) (file_path : str) : bool :=
  wrong_location file_path || negb (isfile w file_path).

(** The loop of line 98 over the candidate files. *)
Fixpoint check_files (w : world) (allow_unpinned : list str)
    (files : list str) (fail : bool) : io bool :=
  match files with
  | [] => ret fail
  | file_path :: rest =>
      if wrong_location file_path then check_files w allow_unpinned rest fail
      else if negb (isfile w file_path) then check_files w allow_unpinned rest fail
      else
        uses <- get_uses_statements w file_path ;;
        fail' <- check_uses w allow_unpinned file_path uses fail ;;
        check_files w allow_unpinned rest fail'
  end.

(** Lines 88-96: the candidates, discovered when the list given is empty. *)
Definition discover (w : world) : list str :=
  rglob_yml w (u ".github/workflows") ++ rglob_yml w (u ".github/actions").

Definition candidates (w : world) (changed_files : list str) : io (list str) :=
  match changed_files with
  | [] =>
      tell [PrintFilesToLookAt (discover w)] ;;
      ret (discover w)
  | _ :: _ => ret changed_files
  end.

(** Lines 125-136: the banner and the exit code. *)
Definition conclude (fail fail_on_error : bool) : io Z :=
  if fail then
    tell [PrintSomeWorkflows; PrintBestPractice] ;;
    if fail_on_error then ret 1%Z else ret 0%Z
  else
    tell [PrintAllPinned] ;;
    ret 0%Z.

Definition validate_workflow_files (w : world) (changed_files allow_unpinned : list str)
    (fail_on_error : bool) : io Z :=
  tell [PrintChecking] ;;
  files <- candidates w changed_files ;;
  fail <- check_files w allow_unpinned files false ;;
  conclude fail fail_on_error.

(* ================================================================== *)
(** ** [main] (lines 139-148) *)

Definition environ_get (w : world) (name default : str) : str :=
  match environ w name with
  | Some v => v
  | None => default
  end.

(** [[x.strip() for x in s.split() if x.strip()]]. *)
Definition words (s : str) : list str :=
  map strip (filter (fun x => match strip x with [] => false | _ => true end) (split s)).

Definition main_changed_files (w : world) : list str :=
  words (environ_get w (u "ALL_CHANGED_FILES") []).

Definition main_allow_unpinned (w : world) : list str :=
  words (environ_get w (u "ALLOW_UNPINNED") []).

Definition main_fail_on_error (w : world) : bool :=
  mem (lower (environ_get w (u "FAIL_ON_ERROR") (u "true")))
      [u "true"; u "1"; u "yes"].

(** [main] up to [sys.exit]: the argument of [sys.exit] when line 148
    gets that far. *)
Definition main (w : world) : io Z :=
  validate_workflow_files w (main_changed_files w) (main_allow_unpinned w)
    (main_fail_on_error w).

(** The exit status of the process: the argument of [sys.exit], or 1 when
    an exception reaches the top level. *)
Definition exit_status (r : io Z) : Z :=
  match snd r with
  | Returned code => code
  | Raised _ => 1%Z
  end.

(* ================================================================== *)
(** ** Notions used to state the properties of a run *)

(** A violation of the batch over [files]: a reference string of a file
    that is scanned, which is neither local, pinned nor allowed. *)
Definition violation_at (w : world) (allow_unpinned files : list str)
    (file_path : str) (line_num : nat) (s : str) : Prop :=
  In file_path files /\ skipped w file_path = false /\
  exists uses,
    snd (get_uses_statements w file_path) = Returned uses /\
    In (Scalar (SStr s), line_num) uses /\
    classify w allow_unpinned s = Violation.



(** Two worlds that answer every question alike. *)
Definition same_world (w1 w2 : world) : Prop :=
  (forall name, environ w1 name = environ w2 name) /\
  (forall p, isfile w1 p = isfile w2 p) /\
  (forall p, isdir w1 p = isdir w2 p) /\
  (forall fd, isdir_fd w1 fd = isdir_fd w2 fd) /\
  (forall p, yaml_load w1 p = yaml_load w2 p) /\
  (forall d, rglob_yml w1 d = rglob_yml w2 d).

(* ================================================================== *)
(** ** Sample inputs *)

Definition single_line (s : str) : bool :=
  forallb (fun c => negb (N.eqb c newline)) s.

(** The strings [SHA_PATTERN.match] accepts: a non-empty prefix without
    newline, an at sign, 40 lowercase hexadecimal digits, and possibly one
    final newline. *)
Definition pinned_shape (s : str) : Prop :=
  exists p h t,
    s = p ++ at_sign :: h ++ t /\ p <> [] /\
    single_line p = true /\
    List.length h = 40 /\ forallb lower_hex h = true /\
    (t = [] \/ t = [newline]).

Definition ci_yml : str := u ".github/workflows/ci.yml".
Definition broken_yml : str := u ".github/workflows/broken.yml".
Definition tag_ref : str := u "actions/checkout@v4".
Definition sha_ref : str := u "actions/checkout@8f4b7f84864484a7bf31766abe9204da3cbe65b1".
Definition zeros40 : str := repeat 48%N 40.

Definition key (k : string) : scalar := SStr (u k).
Definition text (s : string) : yaml := Scalar (SStr (u s)).

(** [- uses: v], with the key on 0-based line [line]. *)
Definition step_with_uses (line : nat) (v : yaml) : yaml :=
  Map [(key "uses", (Some line, v))].

(** A workflow with one job, whose [steps:] value is [steps]. *)
Definition workflow_of (steps : yaml) : yaml :=
  Map [(key "name", (Some 0, text "ci"));
       (key "jobs", (Some 1,
          Map [(key "build", (Some 2,
             Map [(key "runs-on", (Some 3, text "ubuntu-latest"));
                  (key "steps", (Some 4, steps))]))]))].

(** A composite action whose [runs:] value is [runs]. *)
Definition action_of (runs : yaml) : yaml :=
  Map [(key "name", (Some 0, text "act")); (key "runs", (Some 1, runs))].

(** A checkout where only [.github/workflows/ci.yml] exists, with the given
    result of loading it, no directory and no environment variable. *)
Definition one_file_world (content : str + yaml) : world :=
  {| environ := fun _ => None;
     isfile := fun p => str_eqb p ci_yml;
     isdir := fun _ => false;
     isdir_fd := fun _ => Some false;
     yaml_load := fun _ => content;
     rglob_yml := fun d => if str_eqb d (u ".github/workflows") then [ci_yml] else [] |}.

(** [ci.yml] has one step [uses: actions/checkout@v4]. *)
Definition tag_world : world :=
  one_file_world (inr (workflow_of (Seq [step_with_uses 5 (Scalar (SStr tag_ref))]))).

(** Two files: [broken.yml] does not parse, [ci.yml] is as in [tag_world]. *)
Definition broken_world : world :=
  {| environ := fun _ => None;
     isfile := fun p => str_eqb p ci_yml || str_eqb p broken_yml;
     isdir := fun _ => false;
     isdir_fd := fun _ => Some false;
     yaml_load := fun p =>
       if str_eqb p broken_yml then inl (u "mapping values are not allowed here")
       else inr (workflow_of (Seq [step_with_uses 5 (Scalar (SStr tag_ref))]));
     rglob_yml := fun d =>
       if str_eqb d (u ".github/workflows") then [broken_yml; ci_yml] else [] |}.

(** [tag_world] with [CHANGED_FILES] set to the empty string and
    [ALL_CHANGED_FILES] naming a file outside the two directories. *)
Definition named_world : world :=
  {| environ := fun name =>
       if str_eqb name (u "CHANGED_FILES") then Some []
       else if str_eqb name (u "ALL_CHANGED_FILES") then Some (u "README.md")
       else None;
     isfile := fun p => str_eqb p ci_yml;
     isdir := fun _ => false;
     isdir_fd := fun _ => Some false;
     yaml_load := fun _ => inr (workflow_of (Seq [step_with_uses 5 (Scalar (SStr tag_ref))]));
     rglob_yml := fun d => if str_eqb d (u ".github/workflows") then [ci_yml] else [] |}.

(** A checkout with a directory named like a pinned reference. *)
Definition directory_name : str := u "foo@0000000000000000000000000000000000000000".

Definition directory_world : world :=
  {| environ := fun _ => None;
     isfile := fun _ => false;
     isdir := fun p => str_eqb p directory_name;
     isdir_fd := fun _ => Some false;
     yaml_load := fun _ => inl [];
     rglob_yml := fun _ => [] |}.

(* ================================================================== *)
(** ** Notions used to state further properties *)

(** A string without white space, and a word: non-empty and without white
    space. *)
Definition no_space (s : str) : bool := forallb (fun c => negb (isspace c)) s.

Definition is_word (s : str) : bool :=
  match s with
  | [] => false
  | _ :: _ => no_space s
  end.

(** [" ".join(ws)]. *)
Fixpoint join_spaces (ws : list str) : str :=
  match ws with
  | [] => []
  | [x] => x
  | x :: rest => x ++ 32%N :: join_spaces rest
  end.

(** A step container of the expected shape: a mapping whose [steps] value
    is absent or a sequence, each step a mapping; [steps] are its steps. *)
Definition container_steps (step_data : yaml) (steps : list entries) : Prop :=
  exists m, step_data = Map m /\ get (u "steps") (Seq []) m = Seq (map Map steps).

(** The references the extractor returns for a file; none when it raises. *)
Definition references (w : world) (file_path : str) : uses_statements :=
  match snd (get_uses_statements w file_path) with
  | Returned uses => uses
  | Raised _ => []
  end.

(** The line a reference string calls for. *)
Definition line_of_reference (w : world) (allow_unpinned : list str)
    (file_path : str) (use : yaml * nat) : list event :=
  match fst use with
  | Scalar (SStr s) =>
      match classify w allow_unpinned s with
      | Allowed => [PrintIgnoring file_path (snd use) s]
      | Violation => [PrintNotPinned file_path (snd use) s]
      | Local | Pinned => []
      end
  | _ => []
  end.



(** An environment that lists two candidates and two allowed references. *)
Definition listed_world : world :=
  {| environ := fun name =>
       if str_eqb name (u "ALL_CHANGED_FILES")
       then Some (join_spaces [ci_yml; broken_yml])
       else Some (join_spaces [tag_ref; sha_ref]);
     isfile := fun _ => false;
     isdir := fun _ => false;
     isdir_fd := fun _ => None;
     yaml_load := fun _ => inl [];
     rglob_yml := fun _ => [] |}.


(** The step list of a container that the loop of line 58 gets through: the
    container is a mapping, and what [steps] gives to iterate over (the
    default [[]] when the key is absent) is a list of mappings, [steps]. *)
Definition steps_of_container (step_data : yaml) (steps : list entries) : Prop :=
  exists m,
    step_data = Map m /\
    iterate (get (u "steps") (Seq []) m) = Returned (map Map steps).

(** The scanned step lists of a document, container by container: none for
    an empty (falsy) root; for a mapping, the step lists of the containers
    that lines 54-56 select. *)
Definition scanned_step_lists (content : yaml) (stepss : list (list entries)) : Prop :=
  (truthy content = false /\ stepss = []) \/
  (exists m ops,
     content = Map m /\ step_operations m = Returned ops /\
     Forall2 steps_of_container ops stepss).

(** [ci.yml] has a step with [uses: actions/checkout@v4] followed by a
    step that is a bare string. *)
Definition malformed_step_world : world :=
  one_file_world
    (inr (workflow_of (Seq [step_with_uses 5 (Scalar (SStr tag_ref)); text "oops"]))).


(** A workflow with two jobs; the second has no [steps]. *)
Definition two_jobs : entries :=
  [(key "jobs", (Some 0,
      Map [(key "build", (Some 1,
              Map [(key "steps", (Some 2,
                 Seq [step_with_uses 3 (Scalar (SStr sha_ref));
                      Map [(key "run", (Some 4, text "make"))]]))]));
           (key "lint", (Some 5, Map [(key "runs-on", (Some 6, text "ubuntu-latest"))]))]))].

(** A workflow whose only job has [steps:] with nothing after it. *)
Definition null_steps : entries :=
  [(key "jobs", (Some 0,
      Map [(key "build", (Some 1, Map [(key "steps", (Some 2, Scalar SNull))]))]))].

(** [tag_world] with the three variables of [main] set. *)
Definition configured_world : world :=
  {| environ := fun name =>
       if str_eqb name (u "ALL_CHANGED_FILES") then Some (u " ")
       else if str_eqb name (u "ALLOW_UNPINNED") then
         Some (u "actions/checkout@v4 actions/cache@v3")
       else if str_eqb name (u "FAIL_ON_ERROR") then Some (u "true ")
       else None;
     isfile := isfile tag_world;
     isdir := isdir tag_world;
     isdir_fd := isdir_fd tag_world;
     yaml_load := yaml_load tag_world;
     rglob_yml := rglob_yml tag_world |}.

(* ================================================================== *)
(** * Properties *)

(** ** The matcher *)

Section Matcher.

Lemma greedy_spec (a : atom) (k : str -> bool) (s : str) :
  greedy a k s = true <->
  exists p q, s = p ++ q /\ forallb (atom_match a) p = true /\ k q = true.
Proof.
  induction s as [|c s IH]; simpl.
  - split.
    + intros H. exists [], []. auto.
    + intros (p & q & E & _ & K).
      symmetry in E. apply app_eq_nil in E. destruct E; subst. exact K.
  - rewrite orb_true_iff, andb_true_iff, IH. split.
    + intros [[A (p & q & E & F & K)] | K].
      * exists (c :: p), q. subst. simpl. rewrite A, F. auto.
      * exists [], (c :: s). auto.
    + intros (p & q & E & F & K). destruct p as [|d p]; simpl in *.
      * right. subst q. exact K.
      * injection E as -> ->. apply andb_true_iff in F as [A F].
        left. split; [exact A|]. exists p, q. auto.
Qed.

Lemma exactly_spec (a : atom) (n : nat) (k : str -> bool) (s : str) :
  exactly a n k s = true <->
  exists h q, s = h ++ q /\ List.length h = n /\
              forallb (atom_match a) h = true /\ k q = true.
Proof.
  revert s. induction n as [|n IH]; intros s; simpl.
  - split.
    + intros K. exists [], s. auto.
    + intros (h & q & E & L & _ & K).
      apply length_zero_iff_nil in L. subst. exact K.
  - destruct s as [|c s].
    + split; [discriminate|].
      intros (h & q & E & L & _). destruct h; simpl in *; discriminate.
    + rewrite andb_true_iff, IH. split.
      * intros [A (h & q & E & L & F & K)].
        exists (c :: h), q. subst. simpl. rewrite A, F. auto.
      * intros (h & q & E & L & F & K). destruct h as [|d h]; [discriminate|].
        simpl in *. injection E as -> ->. injection L as L.
        apply andb_true_iff in F as [A F]. split; [exact A|].
        exists h, q. auto.
Qed.

Lemma greedy_ext (a : atom) (k k' : str -> bool) :
  (forall s, k s = k' s) -> forall s, greedy a k s = greedy a k' s.
Proof.
  intros E s. induction s as [|c s IH]; simpl; [apply E|].
  now rewrite IH, E.
Qed.

Lemma exactly_ext (a b : atom) (k k' : str -> bool) :
  (forall c, atom_match a c = atom_match b c) ->
  (forall s, k s = k' s) ->
  forall n s, exactly a n k s = exactly b n k' s.
Proof.
  intros Ea Ek n. induction n as [|n IH]; intros s; simpl; [apply Ek|].
  destruct s as [|c s]; [reflexivity|]. now rewrite Ea, IH.
Qed.

Lemma forallb_ext (A : Type) (f g : A -> bool) (l : list A) :
  (forall x, f x = g x) -> forallb f l = forallb g l.
Proof.
  intros E. induction l as [|x l IH]; simpl; [reflexivity|]. now rewrite E, IH.
Qed.

Lemma lower_hex_set_match (c : N) : atom_match lower_hex_set c = lower_hex c.
Proof.
  unfold lower_hex; simpl. rewrite orb_false_r. apply orb_comm.
Qed.

Lemma at_end_spec (t : str) : at_end t = true <-> t = [] \/ t = [newline].
Proof.
  destruct t as [|c [|d t]]; simpl.
  - tauto.
  - rewrite N.eqb_eq. split.
    + intros ->. now right.
    + intros [E|E]; [discriminate|]. now injection E.
  - split; [discriminate|]. intros [E|E]; discriminate.
Qed.

Lemma SHA_PATTERN_sound (s : str) :
  re_match SHA_PATTERN s = true -> pinned_shape s.
Proof.
  unfold re_match, SHA_PATTERN, pinned_shape. cbn [match_items].
  destruct s as [|c s]; [discriminate|].
  rewrite andb_true_iff, greedy_spec.
  intros [A (p & q & E & F & K)].
  destruct q as [|d q]; [discriminate|].
  apply andb_true_iff in K as [D K].
  apply exactly_spec in K as (h & t & E' & L & H & T).
  apply andb_true_iff in T as [T _]. apply at_end_spec in T.
  apply N.eqb_eq in D. subst d q s.
  exists (c :: p), h, t. repeat split; auto.
  - discriminate.
  - simpl. simpl in A. now rewrite A.
  - rewrite <- H. apply forallb_ext. intros x. now rewrite lower_hex_set_match.
Qed.

Lemma SHA_PATTERN_complete (s : str) :
  pinned_shape s -> re_match SHA_PATTERN s = true.
Proof.
  unfold re_match, SHA_PATTERN, pinned_shape. cbn [match_items].
  intros (p & h & t & E & Pne & F & L & H & T).
  destruct p as [|c p]; [congruence|]. subst s. simpl app.
  simpl in F. apply andb_true_iff in F as [A F].
  rewrite andb_true_iff. split; [exact A|].
  apply greedy_spec. exists p, (at_sign :: h ++ t).
  split; [reflexivity|]. split; [exact F|].
  rewrite andb_true_iff. split; [apply N.eqb_refl|].
  apply exactly_spec. exists h, t. repeat split; auto.
  - rewrite <- H. apply forallb_ext. intros x. now rewrite lower_hex_set_match.
  - rewrite andb_true_r. now apply at_end_spec.
Qed.

Lemma SHA_PATTERN_spec (s : str) :
  re_match SHA_PATTERN s = true <-> pinned_shape s.
Proof.
  split; [apply SHA_PATTERN_sound | apply SHA_PATTERN_complete].
Qed.

(** The pattern of the script and the pattern of the specification accept
    the same strings. *)
Lemma SHA_PATTERN_is_spec_pattern (s : str) :
  re_match SHA_PATTERN s = re_match spec_pattern s.
Proof.
  unfold re_match, SHA_PATTERN, spec_pattern. cbn [match_items andb].
  destruct s as [|c s]; [reflexivity|].
  apply (f_equal (andb (atom_match Dot c))).
  apply greedy_ext. intros q. destruct q as [|d q]; [reflexivity|].
  apply (f_equal (andb (atom_match (Lit at_sign) d))).
  apply exactly_ext; [|reflexivity].
  intros x. simpl. rewrite !orb_false_r. apply orb_comm.
Qed.

End Matcher.

(** ** The classifier *)

Section Classifier.

Variable w : world.
Variable allow_unpinned : list str.

Lemma mem_In (x : str) (xs : list str) : mem x xs = true <-> In x xs.
Proof.
  unfold mem. rewrite existsb_exists. split.
  - intros (y & Hy & E). unfold str_eqb in E.
    destruct (str_eq_dec x y); [now subst | discriminate].
  - intros H. exists x. split; [exact H|].
    unfold str_eqb. now destruct (str_eq_dec x x).
Qed.

Lemma single_line_In (s : str) : single_line s = true <-> ~ In newline s.
Proof.
  unfold single_line. induction s as [|c s IH]; simpl.
  - tauto.
  - rewrite andb_true_iff, IH, negb_true_iff, N.eqb_neq. intuition congruence.
Qed.

Lemma single_line_app (a b : str) :
  single_line (a ++ b) = single_line a && single_line b.
Proof. unfold single_line. apply forallb_app. Qed.

Lemma lower_hex_any_hex (c : N) : lower_hex c = true -> any_hex c = true.
Proof. unfold any_hex. now intros ->. Qed.

Lemma take_while_stop (p : N -> bool) (l r : str) (c : N) :
  forallb p l = true -> p c = false -> take_while p (l ++ c :: r) = l.
Proof.
  intros H C. induction l as [|x l IH]; simpl in *.
  - now rewrite C.
  - apply andb_true_iff in H as [X H]. rewrite X. f_equal. now apply IH.
Qed.

Lemma forallb_rev (p : N -> bool) (l : str) : forallb p (rev l) = forallb p l.
Proof.
  induction l as [|x l IH]; simpl; [reflexivity|].
  rewrite forallb_app, IH. simpl. rewrite andb_true_r. apply andb_comm.
Qed.

Lemma forallb_impl (p q : N -> bool) (l : str) :
  (forall x, p x = true -> q x = true) ->
  forallb p l = true -> forallb q l = true.
Proof.
  intros I. induction l as [|x l IH]; simpl; [reflexivity|].
  rewrite !andb_true_iff. intros [X H]. auto.
Qed.

(** The trailing hex run of [p@h] is [h]. *)
Lemma trailing_hex_pinned (p h : str) :
  forallb lower_hex h = true -> trailing_hex (p ++ at_sign :: h) = h.
Proof.
  intros H. unfold trailing_hex.
  rewrite rev_app_distr. simpl. rewrite <- app_assoc. simpl.
  rewrite take_while_stop.
  - apply rev_involutive.
  - rewrite forallb_rev. revert H. apply forallb_impl, lower_hex_any_hex.
  - reflexivity.
Qed.

Lemma pinned_shape_single_line (s : str) :
  single_line s = true ->
  (pinned_shape s <->
   exists p h, s = p ++ at_sign :: h /\ p <> [] /\
               List.length h = 40 /\ forallb lower_hex h = true).
Proof.
  intros S. split.
  - intros (p & h & t & E & Pne & Sp & L & H & [T|T]); subst.
    + exists p, h. rewrite app_nil_r. auto.
    + apply single_line_In in S. exfalso. apply S.
      apply in_or_app. right. right. apply in_or_app. right. now left.
  - intros (p & h & E & Pne & L & H). subst.
    exists p, h, []. rewrite app_nil_r.
    rewrite single_line_app in S. apply andb_true_iff in S as [Sp _]. auto 10.
Qed.

(** The test of line 111 decides between [Pinned] and the later outcomes
    exactly when the reference is not a local directory. *)
Lemma classify_pinned_iff (s : str) :
  isdir w s = false ->
  (classify w allow_unpinned s = Pinned <-> re_match SHA_PATTERN s = true).
Proof.
  intros D. unfold classify. rewrite D.
  destruct (re_match SHA_PATTERN s); [tauto|].
  destruct (mem s allow_unpinned); split; discriminate.
Qed.

End Classifier.

(** C1 (as amended).  For a reference string [s] without newline
    characters, the pin test of line 111 accepts [s] exactly when [s]
    matches [^.+@[0-9a-f]{40}$], that is, when [s] is a non-empty prefix,
    an at sign and exactly 40 lowercase hexadecimal digits, whatever the
    prefix contains.  A string accepted has a trailing hex run of exactly
    40 digits, none of them uppercase, so a shorter or longer run, or one
    with an uppercase digit, is refused.  For a reference that is not a
    local directory, the classifier answers [Pinned] exactly when the pin
    test accepts. *)
Theorem pinned_iff_pattern (s : str) :
  single_line s = true ->
  (re_match SHA_PATTERN s = true <-> re_match spec_pattern s = true) /\
  (re_match SHA_PATTERN s = true <->
   exists p h, s = p ++ at_sign :: h /\ p <> [] /\
               List.length h = 40 /\ forallb lower_hex h = true) /\
  (re_match SHA_PATTERN s = true ->
   List.length (trailing_hex s) = 40 /\ forallb lower_hex (trailing_hex s) = true) /\
  (forall w allow_unpinned, isdir w s = false ->
   (classify w allow_unpinned s = Pinned <-> re_match SHA_PATTERN s = true)).
Proof.
  intros S.
  assert (Shape : re_match SHA_PATTERN s = true <->
                  exists p h, s = p ++ at_sign :: h /\ p <> [] /\
                              List.length h = 40 /\ forallb lower_hex h = true).
  { rewrite SHA_PATTERN_spec. now apply pinned_shape_single_line. }
  split; [|split; [|split]].
  - now rewrite SHA_PATTERN_is_spec_pattern.
  - exact Shape.
  - intros M. apply Shape in M as (p & h & -> & _ & L & H).
    rewrite trailing_hex_pinned by exact H. auto.
  - intros w allow_unpinned. apply classify_pinned_iff.
Qed.

Lemma pinned_iff_pattern_witness :
  single_line sha_ref = true /\
  (re_match SHA_PATTERN sha_ref = true <-> re_match spec_pattern sha_ref = true).
Proof.
  split; [reflexivity|].
  exact (proj1 (pinned_iff_pattern sha_ref eq_refl)).
Defined.

(** C1, as stated, fails.  Each of the three strings below ends in an at
    sign followed by exactly 40 lowercase hexadecimal digits, or has a
    trailing hex run that is not 40 long: a prefix holding a newline is
    refused, an empty prefix is refused, and a reference followed by one
    newline (its trailing hex run is empty) is accepted. *)
Lemma pinned_regardless_of_prefix_fails :
  (List.length zeros40 = 40 /\ forallb lower_hex zeros40 = true) /\
  re_match SHA_PATTERN (u "a" ++ [newline] ++ u "b@" ++ zeros40) = false /\
  re_match SHA_PATTERN (u "@" ++ zeros40) = false /\
  (re_match SHA_PATTERN (u "a@" ++ zeros40 ++ [newline]) = true /\
   trailing_hex (u "a@" ++ zeros40 ++ [newline]) = []).
Proof. vm_compute. repeat split; reflexivity. Qed.

(** C3.  The loop body decides in the order Local, Pinned, Allowed,
    Violation, the first test that holds winning: an existing directory is
    Local even when its name matches the pin pattern; the allow list has no
    say for a reference that is Local or Pinned; and the lines printed and
    the failure flag follow the outcome. *)
Theorem decision_order (w : world) (allow_unpinned : list str) (s : str) :
  (isdir w s = true -> classify w allow_unpinned s = Local) /\
  (isdir w s = false -> re_match SHA_PATTERN s = true ->
   classify w allow_unpinned s = Pinned) /\
  (isdir w s = false -> re_match SHA_PATTERN s = false ->
   In s allow_unpinned -> classify w allow_unpinned s = Allowed) /\
  (isdir w s = false -> re_match SHA_PATTERN s = false ->
   ~ In s allow_unpinned -> classify w allow_unpinned s = Violation) /\
  (isdir w s = true \/ re_match SHA_PATTERN s = true ->
   forall other_list, classify w other_list s = classify w allow_unpinned s) /\
  (forall file_path line_num fail,
   check_use w allow_unpinned file_path fail (Scalar (SStr s), line_num) =
   match classify w allow_unpinned s with
   | Local | Pinned => ([], Returned fail)
   | Allowed => ([PrintIgnoring file_path line_num s], Returned fail)
   | Violation => ([PrintNotPinned file_path line_num s], Returned true)
   end).
Proof.
  unfold classify. split; [|split; [|split; [|split; [|split]]]].
  - now intros ->.
  - now intros -> ->.
  - intros -> -> H. apply mem_In in H. now rewrite H.
  - intros -> -> H. destruct (mem s allow_unpinned) eqn:E; [|reflexivity].
    apply mem_In in E. contradiction.
  - intros [D|M] other_list.
    + now rewrite D.
    + rewrite M. now destruct (isdir w s).
  - intros file_path line_num fail. unfold check_use, classify.
    destruct (isdir w s); [reflexivity|].
    destruct (re_match SHA_PATTERN s); [reflexivity|].
    destruct (mem s allow_unpinned); reflexivity.
Qed.

(** A directory named [foo@0000000000000000000000000000000000000000] is
    Local although its name matches the pin pattern. *)
Example directory_named_like_a_pin :
  re_match SHA_PATTERN directory_name = true /\
  classify directory_world [] directory_name = Local.
Proof. vm_compute. split; reflexivity. Qed.

(** C6.  A reference in the allow list that is neither Local nor Pinned is
    Allowed: the loop body prints exactly one line for it, the
    "Ignoring allowed-unpinned" line, no violation line, and leaves the
    failure flag as it was. *)
Theorem allowed_reference (w : world) (allow_unpinned : list str)
    (file_path : str) (line_num : nat) (fail : bool) (s : str) :
  In s allow_unpinned ->
  re_match SHA_PATTERN s = false ->
  isdir w s = false ->
  classify w allow_unpinned s = Allowed /\
  check_use w allow_unpinned file_path fail (Scalar (SStr s), line_num) =
    ([PrintIgnoring file_path line_num s], Returned fail) /\
  render (PrintIgnoring file_path line_num s) =
    Some (u "[" ++ file_path ++ u ":" ++ str_of_nat line_num ++ u "] " ++
          u "Ignoring allowed-unpinned: " ++ s).
Proof.
  intros A M D.
  assert (C : classify w allow_unpinned s = Allowed).
  { unfold classify. rewrite D, M. apply mem_In in A. now rewrite A. }
  split; [exact C|]. split.
  - unfold check_use. now rewrite C.
  - unfold render, location. now rewrite <- !app_assoc.
Qed.

Lemma allowed_reference_witness :
  (In tag_ref [tag_ref] /\ re_match SHA_PATTERN tag_ref = false /\
   isdir tag_world tag_ref = false) /\
  check_use tag_world [tag_ref] ci_yml false (Scalar (SStr tag_ref), 6) =
    ([PrintIgnoring ci_yml 6 tag_ref], Returned false).
Proof.
  assert (H : In tag_ref [tag_ref]) by (left; reflexivity).
  split; [split; [exact H | split; reflexivity]|].
  exact (proj1 (proj2 (allowed_reference tag_world [tag_ref] ci_yml 6 false tag_ref
                         H eq_refl eq_refl))).
Defined.

(** ** The extractor *)

Section Extractor.

Lemma scan_steps_mappings (steps : list entries) :
  scan_steps (map Map steps) = Returned (flat_map step_uses steps).
Proof.
  induction steps as [|step steps IH]; simpl; [reflexivity|].
  now rewrite IH.
Qed.

Lemma step_uses_cases (step : entries) :
  match lookup (u "uses") step with
  | Some v => step_uses step = if truthy v then [(v, line_num_of step)] else []
  | None => step_uses step = []
  end.
Proof.
  unfold step_uses, get. now destruct (lookup (u "uses") step).
Qed.

(** A root that is falsy, or a mapping with neither key, yields no
    reference. *)
Lemma uses_of_unsupported_mapping (m : entries) :
  lookup (u "jobs") m = None -> lookup (u "runs") m = None ->
  uses_of_content (Map m) = Returned [].
Proof.
  intros J R. unfold uses_of_content. rewrite J, R.
  now destruct (negb (truthy (Map m))).
Qed.

Lemma uses_of_falsy (content : yaml) :
  truthy content = false -> uses_of_content content = Returned [].
Proof. intros T. unfold uses_of_content. now rewrite T. Qed.

(** A root that is truthy and not a mapping has no [.keys()]. *)
Lemma uses_of_non_mapping (content : yaml) :
  truthy content = true -> is_mapping content = false ->
  uses_of_content content = Raised (AttributeError 48).
Proof.
  intros T M. unfold uses_of_content. rewrite T.
  destruct content; simpl in *; [reflexivity | reflexivity | discriminate].
Qed.

(** For a mapping, the function is the scan of its step containers. *)
Lemma uses_of_mapping (m : entries) (ops : list yaml) :
  step_operations m = Returned ops ->
  uses_of_content (Map m) = scan_containers ops.
Proof.
  intros E. unfold uses_of_content. rewrite E. cbn [obind].
  destruct m as [|e m].
  - simpl in E. injection E as <-. reflexivity.
  - cbn [truthy negb].
    destruct (lookup (u "jobs") (e :: m)) eqn:J; [reflexivity|].
    destruct (lookup (u "runs") (e :: m)) eqn:R; [reflexivity|].
    unfold step_operations in E. rewrite J, R in E. injection E as <-.
    reflexivity.
Qed.

Lemma scan_containers_raises (ops : list yaml) :
  (exists c, In c ops /\ is_mapping c = false) ->
  exists e, scan_containers ops = Raised e.
Proof.
  induction ops as [|c ops IH]; intros (d & I & M).
  - destruct I.
  - simpl. destruct (scan_container c) as [found|e] eqn:S; simpl.
    + destruct I as [<-|I].
      * destruct c; simpl in *; discriminate.
      * destruct IH as (e & E); [now exists d|]. rewrite E. now exists e.
    + now exists e.
Qed.

Lemma scan_steps_error (steps : list yaml) (e : exn) :
  scan_steps steps = Raised e -> e = AttributeError 59.
Proof.
  induction steps as [|step steps IH]; simpl; [discriminate|].
  destruct step; try (intros E; now injection E).
  destruct (scan_steps steps); simpl; [discriminate|].
  intros E. injection E as <-. now apply IH.
Qed.

Lemma scan_container_mapping_error (m : entries) (e : exn) :
  scan_container (Map m) = Raised e -> e = TypeError 58 \/ e = AttributeError 59.
Proof.
  simpl. destruct (iterate _) as [steps|e'] eqn:I; simpl.
  - intros E. right. now apply scan_steps_error with steps.
  - intros E. injection E as <-. left.
    destruct (get (u "steps") (Seq []) m) as [[| | |]| |]; simpl in I;
      try discriminate; now injection I.
Qed.

Lemma scan_containers_mappings (ops : list yaml) :
  Forall (fun c => is_mapping c = true) ops ->
  scan_containers ops <> Raised (AttributeError 58).
Proof.
  induction 1 as [|c ops M _ IH]; simpl; [discriminate|].
  destruct c as [| |m]; try discriminate.
  destruct (scan_container (Map m)) as [found|e] eqn:S.
  - simpl. destruct (scan_containers ops) as [more|e']; simpl; [discriminate|].
    intros E. apply IH. exact E.
  - cbn [obind]. intros E. injection E as ->.
    apply scan_container_mapping_error in S as [S|S]; discriminate.
Qed.

End Extractor.

Lemma mappings_or_not (ops : list yaml) :
  Forall (fun c => is_mapping c = true) ops \/
  exists c, In c ops /\ is_mapping c = false.
Proof.
  induction ops as [|c ops [IH|(d & I & M)]].
  - left. constructor.
  - destruct (is_mapping c) eqn:M.
    + left. now constructor.
    + right. exists c. split; [now left | exact M].
  - right. exists d. split; [now right | exact M].
Qed.

Lemma get_uses_statements_loaded (w : world) (file_path : str) (content : yaml) :
  yaml_load w file_path = inr content ->
  get_uses_statements w file_path = ([], uses_of_content content).
Proof. intros L. unfold get_uses_statements. now rewrite L. Qed.

(** When [open] or [yaml.load] raises, the function prints the warning and
    then raises at line 48. *)
Lemma get_uses_statements_load_error (w : world) (file_path e : str) :
  yaml_load w file_path = inl e ->
  get_uses_statements w file_path =
    ([WarnErrorProcessing file_path e], Raised (UnboundLocalError 48)).
Proof. intros L. unfold get_uses_statements. now rewrite L. Qed.

(** The scan of a list of steps that are mappings: what each step
    contributes, and that the scan returns the contributions in order. *)
Lemma steps_contribute_their_uses (steps : list entries) :
  scan_steps (map Map steps) = Returned (flat_map step_uses steps) /\
  (forall m, get (u "steps") (Seq []) m = Seq (map Map steps) ->
             scan_container (Map m) = Returned (flat_map step_uses steps)) /\
  (forall step,
     (lookup (u "uses") step = None -> step_uses step = []) /\
     (forall v, lookup (u "uses") step = Some v -> truthy v = false ->
                step_uses step = []) /\
     (forall v, lookup (u "uses") step = Some v -> truthy v = true ->
                step_uses step = [(v, line_num_of step)]) /\
     (forall s, lookup (u "uses") step = Some (Scalar (SStr s)) ->
                (step_uses step <> [] <-> s <> []))) /\
  (forall r, In r (flat_map step_uses steps) <->
             exists step v, In step steps /\ lookup (u "uses") step = Some v /\
                            truthy v = true /\ r = (v, line_num_of step)).
Proof.
  split; [apply scan_steps_mappings|]. split; [|split].
  - intros m G. simpl. rewrite G. simpl. apply scan_steps_mappings.
  - intros step. pose proof (step_uses_cases step) as C.
    split; [|split; [|split]].
    + intros E. now rewrite E in C.
    + intros v E T. now rewrite E, T in C.
    + intros v E T. now rewrite E, T in C.
    + intros s E. rewrite E in C. rewrite C.
      destruct s; simpl; split; congruence.
  - intros r. rewrite in_flat_map. split.
    + intros (step & I & R). pose proof (step_uses_cases step) as C.
      destruct (lookup (u "uses") step) as [v|] eqn:E.
      * rewrite C in R. destruct (truthy v) eqn:T; [|destruct R].
        destruct R as [<-|[]]. now exists step, v.
      * rewrite C in R. destruct R.
    + intros (step & v & I & E & T & ->). exists step. split; [exact I|].
      pose proof (step_uses_cases step) as C. rewrite E, T in C.
      rewrite C. now left.
Qed.

(** A step list with a pinned step, a step without [uses], and steps whose
    [uses] is empty or null. *)
Example steps_contribute_their_uses_example :
  scan_steps
    [step_with_uses 5 (Scalar (SStr sha_ref));
     Map [(key "run", (Some 6, text "make"))];
     step_with_uses 7 (Scalar (SStr []));
     step_with_uses 8 (Scalar SNull);
     Map [(key "name", (Some 9, text "x")); (key "uses", (None, Scalar (SStr tag_ref)))]]
  = Returned [(Scalar (SStr sha_ref), 6); (Scalar (SStr tag_ref), 0)].
Proof. reflexivity. Qed.

(** C10.  Extraction returns only when every step container is a mapping.
    The containers of a mapping document are the [runs] value, or else the
    values inside [jobs].  When one of them is a scalar or a sequence,
    [get_uses_statements] raises instead of returning a list (the
    [AttributeError] of line 58 when it is the first container); when all
    of them are mappings, that error cannot occur. *)
Theorem extraction_needs_mapping_containers
    (w : world) (file_path : str) (m : entries) (ops : list yaml) :
  yaml_load w file_path = inr (Map m) ->
  step_operations m = Returned ops ->
  ((forall runs, lookup (u "runs") m = Some runs -> ops = [runs]) /\
   (forall jobs, lookup (u "runs") m = None -> lookup (u "jobs") m = Some (Map jobs) ->
                 ops = map (fun e => snd (snd e)) jobs)) /\
  ((exists c, In c ops /\ is_mapping c = false) ->
   exists e, get_uses_statements w file_path = ([], Raised e)) /\
  (forall c rest, ops = c :: rest -> is_mapping c = false ->
   get_uses_statements w file_path = ([], Raised (AttributeError 58))) /\
  (forall uses, get_uses_statements w file_path = ([], Returned uses) ->
   Forall (fun c => is_mapping c = true) ops) /\
  (Forall (fun c => is_mapping c = true) ops ->
   get_uses_statements w file_path <> ([], Raised (AttributeError 58))).
Proof.
  intros L O.
  rewrite (get_uses_statements_loaded w file_path (Map m) L), (uses_of_mapping m ops O).
  split; [|split; [|split; [|split]]].
  - unfold step_operations in O. split.
    + intros runs R. rewrite R in O. now injection O.
    + intros jobs R J. rewrite R, J in O. now injection O.
  - intros H. destruct (scan_containers_raises ops H) as (e & E).
    exists e. now rewrite E.
  - intros c rest -> M. simpl. destruct c; simpl in *; try reflexivity.
    discriminate.
  - intros uses E. destruct (mappings_or_not ops) as [F|H]; [exact F|].
    destruct (scan_containers_raises ops H) as (e & E'). rewrite E' in E.
    discriminate.
  - intros F E. apply (scan_containers_mappings ops F). now injection E.
Qed.

Lemma extraction_needs_mapping_containers_witness :
  let w := one_file_world (inr (action_of (text "composite"))) in
  (yaml_load w ci_yml = inr (action_of (text "composite")) /\
   step_operations [(key "name", (Some 0, text "act"));
                    (key "runs", (Some 1, text "composite"))]
     = Returned [text "composite"]) /\
  get_uses_statements w ci_yml = ([], Raised (AttributeError 58)).
Proof.
  split; [split; reflexivity|].
  exact (proj1 (proj2 (proj2 (extraction_needs_mapping_containers
           (one_file_world (inr (action_of (text "composite")))) ci_yml _ _
           eq_refl eq_refl))) (text "composite") [] eq_refl eq_refl).
Defined.

(** C4 fails on the code for a root that is a non-empty scalar or a
    non-empty sequence: such a document has neither key, yet line 48 calls
    [.keys()] on it and the run ends with an [AttributeError]. *)
Theorem non_mapping_root_raises :
  uses_of_content (text "hello") = Raised (AttributeError 48) /\
  uses_of_content (Seq [text "a"; text "b"]) = Raised (AttributeError 48) /\
  get_uses_statements (one_file_world (inr (text "hello"))) ci_yml
    = ([], Raised (AttributeError 48)) /\
  validate_workflow_files (one_file_world (inr (text "hello"))) [ci_yml] [] true
    = ([PrintChecking], Raised (AttributeError 48)).
Proof. vm_compute. repeat split; reflexivity. Qed.

(** An empty (falsy) root and a mapping with neither key yield no
    reference. *)
Lemma unsupported_document_yields_nothing (w : world) (file_path : str) (content : yaml) :
  yaml_load w file_path = inr content ->
  truthy content = false \/
  (exists m, content = Map m /\ lookup (u "jobs") m = None /\ lookup (u "runs") m = None) ->
  get_uses_statements w file_path = ([], Returned []).
Proof.
  intros L H. rewrite (get_uses_statements_loaded w file_path content L).
  destruct H as [T|(m & -> & J & R)].
  - now rewrite uses_of_falsy.
  - now rewrite uses_of_unsupported_mapping.
Qed.

(** C2 fails on the code: when a file does not parse, the warning is
    printed, then line 48 reads [content], which was never assigned.  The
    exception leaves [validate_workflow_files]: the files after the broken
    one are not looked at (alone, [ci.yml] is reported). *)
Theorem parse_failure_aborts_run :
  get_uses_statements broken_world broken_yml
    = ([WarnErrorProcessing broken_yml (u "mapping values are not allowed here")],
       Raised (UnboundLocalError 48)) /\
  validate_workflow_files broken_world [broken_yml; ci_yml] [] true
    = ([PrintChecking;
        WarnErrorProcessing broken_yml (u "mapping values are not allowed here")],
       Raised (UnboundLocalError 48)) /\
  validate_workflow_files broken_world [ci_yml] [] true
    = ([PrintChecking; PrintNotPinned ci_yml 6 tag_ref;
        PrintSomeWorkflows; PrintBestPractice],
       Returned 1%Z).
Proof. vm_compute. repeat split; reflexivity. Qed.

(** ** The run *)

Section Run.

Variable w : world.
Variable allow_unpinned : list str.

Lemma bind_returned (A B : Type) (c : io A) (k : A -> io B) (out : list event) (b : B) :
  bind c k = (out, Returned b) ->
  exists out1 a out2,
    c = (out1, Returned a) /\ k a = (out2, Returned b) /\ out = out1 ++ out2.
Proof.
  destruct c as [out1 [a|e]]; simpl; [|discriminate].
  intros E. exists out1, a, (fst (k a)).
  destruct (k a) as [out2 r]. simpl in *. injection E as <- ->. auto.
Qed.

Lemma check_use_returned (file_path : str) (fail fail' : bool)
    (use : yaml * nat) (out : list event) :
  check_use w allow_unpinned file_path fail use = (out, Returned fail') ->
  (fail' = true <->
   fail = true \/
   exists s, fst use = Scalar (SStr s) /\ classify w allow_unpinned s = Violation) /\
  (forall s, fst use = Scalar (SStr s) -> classify w allow_unpinned s = Violation ->
             out = [PrintNotPinned file_path (snd use) s]).
Proof.
  destruct use as [v n]. unfold check_use. cbn [fst snd].
  assert (NS : forall fd,
             (forall s, v <> Scalar (SStr s)) ->
             check_non_string w fail fd = (out, Returned fail') ->
             (fail' = true <->
              fail = true \/
              exists s, v = Scalar (SStr s) /\ classify w allow_unpinned s = Violation) /\
             (forall s, v = Scalar (SStr s) -> classify w allow_unpinned s = Violation ->
                        out = [PrintNotPinned file_path n s])).
  { intros fd N E. unfold check_non_string in E.
    destruct fd as [z|]; [|discriminate].
    destruct (isdir_fd w z) as [[|]|]; try discriminate.
    injection E as <- <-. split.
    - split; [now left|]. intros [F|(s & V & _)]; [exact F | now apply N in V].
    - intros s V. now apply N in V. }
  destruct v as [[|b|z|s]|items|m]; cbv beta iota;
    try (apply NS; intros s; discriminate).
  destruct (classify w allow_unpinned s) eqn:C; simpl;
    intros E; injection E as <- <-; split;
    try (intros s' V; injection V as <-; rewrite C; congruence).
  - split; [now left|]. intros [F|(s' & V & C')]; [exact F|].
    injection V as <-. congruence.
  - split; [now left|]. intros [F|(s' & V & C')]; [exact F|].
    injection V as <-. congruence.
  - split; [now left|]. intros [F|(s' & V & C')]; [exact F|].
    injection V as <-. congruence.
  - split; [|reflexivity]. intros _. right. now exists s.
Qed.

Lemma check_uses_returned (file_path : str) (uses : uses_statements) :
  forall (fail fail' : bool) (out : list event),
  check_uses w allow_unpinned file_path uses fail = (out, Returned fail') ->
  (fail' = true <->
   fail = true \/
   exists n s, In (Scalar (SStr s), n) uses /\ classify w allow_unpinned s = Violation) /\
  (forall n s, In (Scalar (SStr s), n) uses -> classify w allow_unpinned s = Violation ->
               In (PrintNotPinned file_path n s) out).
Proof.
  induction uses as [|use uses IH]; intros fail fail' out; simpl.
  - intros E. injection E as <- <-. split.
    + split; [now left|]. intros [F|(n & s & [] & _)]. exact F.
    + intros n s [].
  - intros E. apply bind_returned in E as (out1 & f1 & out2 & E1 & E2 & ->).
    apply check_use_returned in E1 as [F1 P1].
    apply IH in E2 as [F2 P2]. split.
    + rewrite F2, F1. split.
      * intros [[F|(s & V & C)]|(n & s & I & C)].
        -- now left.
        -- right. exists (snd use), s. split; [|exact C].
           left. destruct use; simpl in *. now subst.
        -- right. exists n, s. split; [now right | exact C].
      * intros [F|(n & s & [I|I] & C)].
        -- left. now left.
        -- left. right. exists s. subst use. auto.
        -- right. now exists n, s.
    + intros n s [I|I] C; apply in_or_app.
      * left. subst use. rewrite (P1 s eq_refl C). now left.
      * right. now apply P2.
Qed.


End Run.

Section Batch.

Variable w : world.
Variable allow_unpinned : list str.

Lemma bind_ext (A B : Type) (c : io A) (k k' : A -> io B) :
  (forall a, k a = k' a) -> bind c k = bind c k'.
Proof. intros E. destruct c as [out [a|e]]; simpl; [now rewrite E | reflexivity]. Qed.

Lemma skipped_cases (file_path : str) :
  skipped w file_path = false <->
  wrong_location file_path = false /\ isfile w file_path = true.
Proof.
  unfold skipped. rewrite orb_false_iff, negb_false_iff. tauto.
Qed.

Lemma violation_at_cons_skipped (f : str) (rest : list str) (f' : str) (n : nat) (s : str) :
  skipped w f = true ->
  (violation_at w allow_unpinned (f :: rest) f' n s <->
   violation_at w allow_unpinned rest f' n s).
Proof.
  intros K. unfold violation_at. split.
  - intros ([<-|I] & S & H); [congruence|]. auto.
  - intros (I & S & H). split; [now right|]. auto.
Qed.

Lemma violation_at_cons_scanned (f : str) (rest : list str) (uses : uses_statements)
    (f' : str) (n : nat) (s : str) :
  skipped w f = false ->
  snd (get_uses_statements w f) = Returned uses ->
  (violation_at w allow_unpinned (f :: rest) f' n s <->
   (f' = f /\ In (Scalar (SStr s), n) uses /\ classify w allow_unpinned s = Violation) \/
   violation_at w allow_unpinned rest f' n s).
Proof.
  intros K G. unfold violation_at. split.
  - intros ([<-|I] & S & uses' & G' & H).
    + left. rewrite G in G'. injection G' as <-. tauto.
    + right. split; [exact I|]. split; [exact S|]. now exists uses'.
  - intros [(-> & I & C)|(I & S & H)].
    + split; [now left|]. split; [exact K|]. now exists uses.
    + split; [now right|]. auto.
Qed.

Lemma check_files_returned (files : list str) :
  forall (fail fail' : bool) (out : list event),
  check_files w allow_unpinned files fail = (out, Returned fail') ->
  (fail' = true <->
   fail = true \/ exists f n s, violation_at w allow_unpinned files f n s) /\
  (forall f n s, violation_at w allow_unpinned files f n s ->
                 In (PrintNotPinned f n s) out).
Proof.
  induction files as [|f rest IH]; intros fail fail' out; simpl.
  - intros E. injection E as <- <-. split.
    + split; [now left|]. intros [F|(f & n & s & [] & _)]. exact F.
    + intros f n s ([] & _).
  - assert (Skip : skipped w f = true ->
                   check_files w allow_unpinned rest fail = (out, Returned fail') ->
                   (fail' = true <->
                    fail = true \/
                    exists f' n s, violation_at w allow_unpinned (f :: rest) f' n s) /\
                   (forall f' n s, violation_at w allow_unpinned (f :: rest) f' n s ->
                                   In (PrintNotPinned f' n s) out)).
    { intros K E. apply IH in E as [F P]. split.
      - rewrite F. split.
        + intros [H|(f' & n & s & V)]; [now left|]. right. exists f', n, s.
          now apply violation_at_cons_skipped.
        + intros [H|(f' & n & s & V)]; [now left|]. right. exists f', n, s.
          now apply violation_at_cons_skipped in V.
      - intros f' n s V. apply P. now apply violation_at_cons_skipped in V. }
    destruct (wrong_location f) eqn:W.
    { apply Skip. unfold skipped. now rewrite W. }
    destruct (isfile w f) eqn:I; simpl.
    2:{ apply Skip. unfold skipped. now rewrite W, I. }
    assert (K : skipped w f = false) by (apply skipped_cases; auto).
    intros E. apply bind_returned in E as (out1 & uses & out' & G & E & ->).
    apply bind_returned in E as (out2 & fail1 & out3 & U & R & ->).
    apply check_uses_returned in U as [FU PU].
    apply IH in R as [FR PR].
    assert (G' : snd (get_uses_statements w f) = Returned uses) by now rewrite G.
    split.
    + rewrite FR, FU. split.
      * intros [[H|(n & s & In' & C)]|(f' & n & s & V)].
        -- now left.
        -- right. exists f, n, s.
           apply (violation_at_cons_scanned f rest uses f n s K G'). left. auto.
        -- right. exists f', n, s.
           apply (violation_at_cons_scanned f rest uses f' n s K G'). now right.
      * intros [H|(f' & n & s & V)]; [left; now left|].
        apply (violation_at_cons_scanned f rest uses f' n s K G') in V
          as [(-> & In' & C)|V].
        -- left. right. now exists n, s.
        -- right. now exists f', n, s.
    + intros f' n s V. apply in_or_app. right. apply in_or_app.
      apply (violation_at_cons_scanned f rest uses f' n s K G') in V
        as [(-> & In' & C)|V].
      * left. now apply PU.
      * right. now apply PR.
Qed.


(** Candidates that are skipped leave no trace: the loop over a list is the
    loop over the candidates it keeps. *)
Lemma check_files_filter (files : list str) :
  forall fail,
  check_files w allow_unpinned files fail =
  check_files w allow_unpinned (filter (fun f => negb (skipped w f)) files) fail.
Proof.
  induction files as [|f rest IH]; intros fail; simpl; [reflexivity|].
  unfold skipped at 1.
  destruct (wrong_location f) eqn:W; simpl; [apply IH|].
  destruct (isfile w f) eqn:I; simpl; [|apply IH].
  rewrite W, I. simpl.
  apply bind_ext. intros uses. apply bind_ext. intros fail'. apply IH.
Qed.

Lemma candidates_returns (changed_files : list str) :
  exists out files, candidates w changed_files = (out, Returned files).
Proof.
  destruct changed_files as [|f rest]; simpl.
  - now exists [PrintFilesToLookAt (discover w)], (discover w).
  - now exists [], (f :: rest).
Qed.


End Batch.


(** The warn-only run: one violation, the flag disabled; the line is
    printed and the exit code is 0.  With the flag enabled the same lines
    are printed and the exit code is 1. *)
Example warn_only_run :
  validate_workflow_files tag_world [ci_yml] [] false
    = ([PrintChecking; PrintNotPinned ci_yml 6 tag_ref;
        PrintSomeWorkflows; PrintBestPractice], Returned 0%Z) /\
  validate_workflow_files tag_world [ci_yml] [] true
    = ([PrintChecking; PrintNotPinned ci_yml 6 tag_ref;
        PrintSomeWorkflows; PrintBestPractice], Returned 1%Z).
Proof. vm_compute. split; reflexivity. Qed.

(** C8 (as amended).  When the [ALL_CHANGED_FILES] environment input is
    unset or empty, [main] passes no candidate, and the run discovers them:
    the [*.yml] paths under [.github/workflows], then those under
    [.github/actions].  Whatever the candidates, the loop skips, without a
    trace, a path that names neither directory and a path that is not an
    existing file. *)
Theorem fallback_discovery (w : world) :
  environ_get w (u "ALL_CHANGED_FILES") [] = [] ->
  main_changed_files w = [] /\
  main w = validate_workflow_files w [] (main_allow_unpinned w) (main_fail_on_error w) /\
  candidates w (main_changed_files w) =
    ([PrintFilesToLookAt (rglob_yml w (u ".github/workflows") ++
                          rglob_yml w (u ".github/actions"))],
     Returned (rglob_yml w (u ".github/workflows") ++
               rglob_yml w (u ".github/actions"))) /\
  (forall f,
     skipped w f = true <->
     (contains (u ".github/workflows") f = false /\
      contains (u ".github/actions") f = false) \/
     isfile w f = false) /\
  (forall allow_unpinned files fail,
     check_files w allow_unpinned files fail =
     check_files w allow_unpinned (filter (fun f => negb (skipped w f)) files) fail).
Proof.
  intros E.
  assert (M : main_changed_files w = []).
  { unfold main_changed_files. now rewrite E. }
  split; [exact M|]. split; [|split; [|split]].
  - unfold main. now rewrite M.
  - rewrite M. reflexivity.
  - intros f. unfold skipped, wrong_location.
    rewrite orb_true_iff, andb_true_iff, !negb_true_iff. tauto.
  - intros allow_unpinned files fail. apply check_files_filter.
Qed.

Lemma fallback_discovery_witness :
  environ_get tag_world (u "ALL_CHANGED_FILES") [] = [] /\
  main_changed_files tag_world = [].
Proof.
  split; [reflexivity|].
  exact (proj1 (fallback_discovery tag_world eq_refl)).
Defined.

(** C8, as stated, fails: the variable read is [ALL_CHANGED_FILES], not
    [CHANGED_FILES].  In [named_world], [CHANGED_FILES] is empty and
    [ALL_CHANGED_FILES] is "README.md"; the run does not discover
    [ci.yml], prints no list of files and reports success, whereas a run
    given no candidate discovers [ci.yml] and reports its violation. *)
Lemma changed_files_variable_is_not_read :
  environ named_world (u "CHANGED_FILES") = Some [] /\
  main_changed_files named_world = [u "README.md"] /\
  main named_world = ([PrintChecking; PrintAllPinned], Returned 0%Z) /\
  validate_workflow_files named_world [] [] true
    = ([PrintChecking; PrintFilesToLookAt [ci_yml];
        PrintNotPinned ci_yml 6 tag_ref;
        PrintSomeWorkflows; PrintBestPractice], Returned 1%Z).
Proof. vm_compute. repeat split; reflexivity. Qed.

(** ** Determinism *)

Section SameWorld.

Variables w1 w2 : world.
Hypothesis same : same_world w1 w2.

Lemma same_get_uses_statements (file_path : str) :
  get_uses_statements w1 file_path = get_uses_statements w2 file_path.
Proof.
  destruct same as (_ & _ & _ & _ & L & _).
  unfold get_uses_statements. now rewrite L.
Qed.

Lemma same_check_use (allow_unpinned : list str) (file_path : str) (fail : bool)
    (use : yaml * nat) :
  check_use w1 allow_unpinned file_path fail use =
  check_use w2 allow_unpinned file_path fail use.
Proof.
  destruct same as (_ & _ & D & FD & _ & _).
  destruct use as [v n]. unfold check_use, classify, check_non_string.
  destruct v as [[|b|z|s]|items|m]; rewrite ?D, ?FD; reflexivity.
Qed.

Lemma same_check_uses (allow_unpinned : list str) (file_path : str)
    (uses : uses_statements) :
  forall fail,
  check_uses w1 allow_unpinned file_path uses fail =
  check_uses w2 allow_unpinned file_path uses fail.
Proof.
  induction uses as [|use uses IH]; intros fail; simpl; [reflexivity|].
  rewrite same_check_use. apply bind_ext. intros fail'. apply IH.
Qed.

Lemma same_check_files (allow_unpinned files : list str) :
  forall fail,
  check_files w1 allow_unpinned files fail = check_files w2 allow_unpinned files fail.
Proof.
  pose proof same as (_ & F & _).
  induction files as [|f rest IH]; intros fail; simpl; [reflexivity|].
  rewrite F, same_get_uses_statements, IH.
  destruct (wrong_location f); [reflexivity|].
  destruct (negb (isfile w2 f)); [reflexivity|].
  apply bind_ext. intros uses. rewrite same_check_uses.
  apply bind_ext. intros fail'. apply IH.
Qed.

Lemma same_candidates (changed_files : list str) :
  candidates w1 changed_files = candidates w2 changed_files.
Proof.
  destruct same as (_ & _ & _ & _ & _ & G).
  destruct changed_files; simpl; [|reflexivity].
  unfold discover. now rewrite !G.
Qed.

Lemma same_validate (changed_files allow_unpinned : list str) (fail_on_error : bool) :
  validate_workflow_files w1 changed_files allow_unpinned fail_on_error =
  validate_workflow_files w2 changed_files allow_unpinned fail_on_error.
Proof.
  unfold validate_workflow_files. rewrite same_candidates.
  apply bind_ext. intros _. apply bind_ext. intros files.
  now rewrite same_check_files.
Qed.

End SameWorld.

(** Two worlds that answer every question alike give the same run. *)
Lemma runs_agree_in_like_worlds
    (w1 w2 : world) (changed_files allow_unpinned : list str) (fail_on_error : bool) :
  same_world w1 w2 ->
  validate_workflow_files w1 changed_files allow_unpinned fail_on_error =
  validate_workflow_files w2 changed_files allow_unpinned fail_on_error /\
  main w1 = main w2 /\
  exit_status (main w1) = exit_status (main w2).
Proof.
  intros S. split; [now apply same_validate|].
  assert (M : main w1 = main w2).
  { pose proof S as (E & _).
    unfold main, main_changed_files, main_allow_unpinned, main_fail_on_error,
      environ_get.
    rewrite !E. now apply same_validate. }
  split; [exact M | now rewrite M].
Qed.

(** ** The end-to-end scenarios of the specification *)

(** Scenario 1: one step [uses: actions/checkout@v4], the flag enabled and
    an empty allow list: one violation line, exit code 1. *)
Example scenario_tag_is_a_violation :
  validate_workflow_files tag_world [ci_yml] [] true
    = ([PrintChecking; PrintNotPinned ci_yml 6 tag_ref;
        PrintSomeWorkflows; PrintBestPractice], Returned 1%Z).
Proof. reflexivity. Qed.

(** Scenario 2: the same file with the reference in the allow list: one
    "Ignoring allowed-unpinned" line, exit code 0. *)
Example scenario_tag_is_allowed :
  validate_workflow_files tag_world [ci_yml] [tag_ref] true
    = ([PrintChecking; PrintIgnoring ci_yml 6 tag_ref; PrintAllPinned], Returned 0%Z).
Proof. reflexivity. Qed.

(** Scenario 3: a step pinned to 40 hexadecimal digits: no diagnostic
    line, exit code 0. *)
Example scenario_sha_is_pinned :
  validate_workflow_files
    (one_file_world (inr (workflow_of (Seq [step_with_uses 5 (Scalar (SStr sha_ref))]))))
    [ci_yml] [] true
    = ([PrintChecking; PrintAllPinned], Returned 0%Z).
Proof. vm_compute. reflexivity. Qed.

(** Scenario 4: no candidate given and nothing to discover: the success
    banner, exit code 0. *)
Example scenario_nothing_to_check :
  validate_workflow_files
    {| environ := fun _ => None; isfile := fun _ => false; isdir := fun _ => false;
       isdir_fd := fun _ => Some false; yaml_load := fun _ => inl [];
       rglob_yml := fun _ => [] |}
    [] [] true
    = ([PrintChecking; PrintFilesToLookAt []; PrintAllPinned], Returned 0%Z).
Proof. reflexivity. Qed.

(** ** Further properties of the script *)

(** The pin test accepts exactly the strings made of a non-empty prefix
    without newline, an at sign, 40 lowercase hexadecimal digits and
    possibly one final newline. *)
Theorem pin_test_accepts_exactly (s : str) :
  re_match SHA_PATTERN s = true <->
  exists p h t,
    s = p ++ at_sign :: h ++ t /\ p <> [] /\ single_line p = true /\
    List.length h = 40 /\ forallb lower_hex h = true /\
    (t = [] \/ t = [newline]).
Proof. apply SHA_PATTERN_spec. Qed.

(** [FAIL_ON_ERROR] enables the failure flag when it is unset, and
    otherwise exactly when its value, lowercased, is "true", "1" or
    "yes". *)
Theorem fail_on_error_values (w : world) :
  match environ w (u "FAIL_ON_ERROR") with
  | None => main_fail_on_error w = true
  | Some v =>
      main_fail_on_error w = true <-> In (lower v) [u "true"; u "1"; u "yes"]
  end /\
  lower (u "TRUE") = u "true" /\ lower (u "Yes") = u "yes" /\
  mem (lower (u "false")) [u "true"; u "1"; u "yes"] = false /\
  mem (lower []) [u "true"; u "1"; u "yes"] = false.
Proof.
  split; [|vm_compute; repeat split; reflexivity].
  unfold main_fail_on_error, environ_get.
  destruct (environ w (u "FAIL_ON_ERROR")) as [v|]; [apply mem_In | reflexivity].
Qed.

(** The line reported for a reference is the 1-based line of its [uses]
    key, and 0 when the mapping records no position for the key. *)
Theorem line_number_of_uses (step : entries) :
  match find_key (u "uses") step with
  | Some (Some line, _) => line_num_of step = line + 1
  | Some (None, _) => line_num_of step = 0
  | None => line_num_of step = 0
  end.
Proof.
  unfold line_num_of. destruct (find_key (u "uses") step) as [[[line|] v]|]; reflexivity.
Qed.

(** A document with a [runs] key has its value as the only step container,
    whatever [jobs] holds. *)
Theorem runs_key_wins (content : entries) :
  match lookup (u "runs") content with
  | Some runs => step_operations content = Returned [runs]
  | None => True
  end.
Proof.
  unfold step_operations. now destruct (lookup (u "runs") content).
Qed.

(** A step container without a [steps] key yields no reference. *)
Theorem no_steps_no_references (step_data : entries) :
  match lookup (u "steps") step_data with
  | None => scan_container (Map step_data) = Returned []
  | Some _ => True
  end.
Proof.
  destruct (lookup (u "steps") step_data) eqn:E; [exact I|].
  simpl. unfold get. now rewrite E.
Qed.

(** ** The words of an environment variable *)

Section Words.

Lemma no_space_app (a b : str) : no_space (a ++ b) = no_space a && no_space b.
Proof. unfold no_space. apply forallb_app. Qed.

Lemma no_space_rev (s : str) : no_space (rev s) = no_space s.
Proof. unfold no_space. apply forallb_rev. Qed.

Lemma is_word_spec (s : str) : is_word s = true <-> s <> [] /\ no_space s = true.
Proof.
  destruct s as [|c s]; simpl.
  - split; [discriminate | intros [H _]; congruence].
  - split; [intros H; split; [discriminate | exact H] | tauto].
Qed.

Lemma rev_not_nil (s : str) : s <> [] -> rev s <> [].
Proof.
  intros N E. apply N. rewrite <- (rev_involutive s), E. reflexivity.
Qed.

(** Every string [split] returns is a word. *)
Lemma split_from_words (s : str) :
  forall cur, no_space cur = true ->
  Forall (fun x => is_word x = true) (split_from cur s).
Proof.
  induction s as [|c s IH]; intros cur C; simpl.
  - destruct cur as [|d cur]; constructor; [|constructor].
    apply is_word_spec. split; [apply rev_not_nil; discriminate|].
    now rewrite no_space_rev.
  - destruct (isspace c) eqn:S.
    + destruct cur as [|d cur]; [now apply IH|].
      constructor; [|now apply IH].
      apply is_word_spec. split; [apply rev_not_nil; discriminate|].
      now rewrite no_space_rev.
    + apply IH. change (negb (isspace c) && no_space cur = true).
      now rewrite S, C.
Qed.

Lemma lstrip_no_space (s : str) : no_space s = true -> lstrip s = s.
Proof.
  destruct s as [|c s]; simpl; [reflexivity|].
  intros H. apply andb_true_iff in H as [H _].
  apply negb_true_iff in H. now rewrite H.
Qed.

Lemma strip_no_space (s : str) : no_space s = true -> strip s = s.
Proof.
  intros H. unfold strip. rewrite (lstrip_no_space s H).
  rewrite lstrip_no_space by now rewrite no_space_rev.
  apply rev_involutive.
Qed.

(** On words, the [strip] calls and the filter of the comprehension of
    lines 144-145 change nothing. *)
Lemma words_of_words (l : list str) :
  Forall (fun x => is_word x = true) l ->
  map strip (filter (fun x => match strip x with [] => false | _ => true end) l) = l.
Proof.
  induction 1 as [|x l W _ IH]; simpl; [reflexivity|].
  apply is_word_spec in W as [N S]. rewrite (strip_no_space x S).
  destruct x as [|c x]; [congruence|]. simpl.
  now rewrite (strip_no_space (c :: x) S), IH.
Qed.

Lemma words_is_split (s : str) : words s = split s.
Proof. unfold words. apply words_of_words. now apply split_from_words. Qed.

Lemma split_from_nil (s : str) :
  forall cur, split_from cur s = [] <-> cur = [] /\ forallb isspace s = true.
Proof.
  induction s as [|c s IH]; intros cur; simpl.
  - destruct cur; split; try tauto; try discriminate. intros [H _]. discriminate.
  - destruct (isspace c) eqn:S; simpl.
    + destruct cur as [|d cur].
      * rewrite IH. tauto.
      * split; [discriminate | intros [H _]; discriminate].
    + rewrite IH. split; [intros [H _]; discriminate | intros [_ H]; discriminate].
Qed.

(** [split] over a white-space character: the words before, then the
    words after. *)
Lemma split_from_space (a b : str) (c : N) :
  isspace c = true ->
  forall cur, split_from cur (a ++ c :: b) = split_from cur a ++ split_from [] b.
Proof.
  intros S. induction a as [|x a IH]; intros cur; simpl.
  - rewrite S. now destruct cur.
  - destruct (isspace x).
    + destruct cur as [|d cur]; [apply IH|]. simpl. now rewrite IH.
    + apply IH.
Qed.

Lemma split_from_no_space (x : str) :
  no_space x = true ->
  forall cur, split_from cur x = match rev cur ++ x with [] => [] | y => [y] end.
Proof.
  induction x as [|c x IH]; intros S cur; simpl.
  - rewrite app_nil_r. destruct cur as [|d cur]; [reflexivity|].
    destruct (rev (d :: cur)) eqn:E; [|reflexivity].
    exfalso. revert E. apply rev_not_nil. discriminate.
  - simpl in S. apply andb_true_iff in S as [C S].
    apply negb_true_iff in C. rewrite C, (IH S). simpl.
    now rewrite <- app_assoc.
Qed.

Lemma split_word (x : str) : is_word x = true -> split x = [x].
Proof.
  intros W. apply is_word_spec in W as [N S].
  unfold split. rewrite (split_from_no_space x S). simpl.
  destruct x; [congruence | reflexivity].
Qed.

Lemma split_join_spaces (ws : list str) :
  Forall (fun x => is_word x = true) ws -> split (join_spaces ws) = ws.
Proof.
  induction 1 as [|x ws W F IH]; [reflexivity|].
  destruct ws as [|y ws]; [now apply split_word|].
  change (join_spaces (x :: y :: ws)) with (x ++ 32%N :: join_spaces (y :: ws)).
  unfold split. rewrite split_from_space by reflexivity.
  fold (split x). fold (split (join_spaces (y :: ws))).
  now rewrite IH, (split_word x W).
Qed.

Ltac decide_comparisons :=
  repeat match goal with
         | |- context [(?a <=? ?b)%N] =>
             first [ replace (a <=? b)%N with true
                       by (symmetry; apply N.leb_le; lia)
                   | replace (a <=? b)%N with false
                       by (symmetry; apply N.leb_gt; lia) ]
         | |- context [(?a =? ?b)%N] =>
             replace (a =? b)%N with false by (symmetry; apply N.eqb_neq; lia)
         end.

Lemma isspace_letter (c : N) :
  (65 <= c <= 90)%N -> isspace c = false /\ isspace (c + 32) = false.
Proof.
  intros [L H]. unfold isspace. split; decide_comparisons; reflexivity.
Qed.

(** Lowercasing leaves white space white space, and nothing else becomes
    white space. *)
Lemma lower_keeps_space (s : str) :
  existsb isspace (lower s) = existsb isspace s.
Proof.
  unfold lower. induction s as [|c s IH]; simpl; [reflexivity|].
  rewrite IH.
  destruct ((65 <=? c) && (c <=? 90))%N eqn:U; [|reflexivity].
  apply andb_true_iff in U as [L H].
  apply N.leb_le in L. apply N.leb_le in H.
  destruct (isspace_letter c (conj L H)) as [-> ->]. reflexivity.
Qed.

End Words.

(** The two lists [main] builds hold words only: each entry is non-empty
    and has no white space, so the [strip] calls and the filter of lines
    144-145 change nothing, and a reference that contains white space
    cannot be put on the allow list through [ALLOW_UNPINNED]. *)
Theorem main_lists_hold_words (w : world) :
  main_changed_files w = split (environ_get w (u "ALL_CHANGED_FILES") []) /\
  main_allow_unpinned w = split (environ_get w (u "ALLOW_UNPINNED") []) /\
  (forall f, In f (main_changed_files w) -> f <> [] /\ no_space f = true) /\
  (forall s, In s (main_allow_unpinned w) -> s <> [] /\ no_space s = true).
Proof.
  unfold main_changed_files, main_allow_unpinned. rewrite !words_is_split.
  split; [reflexivity|]. split; [reflexivity|].
  assert (W : forall s x, In x (split s) -> x <> [] /\ no_space x = true).
  { intros s x I. apply is_word_spec.
    pose proof (split_from_words s [] eq_refl) as F.
    rewrite Forall_forall in F. now apply F. }
  split; intros x I; now apply W in I.
Qed.

(** Words joined by single spaces in [ALLOW_UNPINNED] or
    [ALL_CHANGED_FILES] come back as the list of those words, in order. *)
Theorem space_separated_lists_round_trip (w : world) (files allowed : list str) :
  Forall (fun x => is_word x = true) files ->
  Forall (fun x => is_word x = true) allowed ->
  environ w (u "ALL_CHANGED_FILES") = Some (join_spaces files) ->
  environ w (u "ALLOW_UNPINNED") = Some (join_spaces allowed) ->
  main_changed_files w = files /\ main_allow_unpinned w = allowed.
Proof.
  intros F A EF EA.
  unfold main_changed_files, main_allow_unpinned, environ_get.
  rewrite EF, EA, !words_is_split. split; now apply split_join_spaces.
Qed.

Lemma space_separated_lists_round_trip_witness :
  main_changed_files listed_world = [ci_yml; broken_yml] /\
  main_allow_unpinned listed_world = [tag_ref; sha_ref].
Proof.
  refine (space_separated_lists_round_trip listed_world
            [ci_yml; broken_yml] [tag_ref; sha_ref] _ _ eq_refl eq_refl).
  - repeat constructor.
  - repeat constructor.
Defined.

(** [FAIL_ON_ERROR] is lowercased but not stripped: a value that contains
    a white-space character, such as "true" followed by a space, disables
    the failure flag. *)
Theorem fail_on_error_is_not_stripped (w : world) (v : str) :
  environ w (u "FAIL_ON_ERROR") = Some v ->
  existsb isspace v = true ->
  main_fail_on_error w = false.
Proof.
  intros E S. unfold main_fail_on_error, environ_get. rewrite E. cbv beta iota.
  destruct (mem (lower v) [u "true"; u "1"; u "yes"]) eqn:M; [|reflexivity].
  apply mem_In in M. rewrite <- lower_keeps_space in S.
  destruct M as [M|[M|[M|[]]]]; rewrite <- M in S; discriminate.
Qed.

Lemma fail_on_error_is_not_stripped_witness :
  (environ configured_world (u "FAIL_ON_ERROR") = Some (u "true ") /\
   existsb isspace (u "true ") = true) /\
  main_fail_on_error configured_world = false.
Proof.
  split; [split; reflexivity|].
  exact (fail_on_error_is_not_stripped configured_world (u "true ") eq_refl eq_refl).
Defined.

(** ** The location test *)

Section Location.

Lemma startswith_spec (p s : str) :
  startswith p s = true <-> exists post, s = p ++ post.
Proof.
  revert s. induction p as [|a p IH]; intros s; simpl.
  - split; [intros _; now exists s | reflexivity].
  - destruct s as [|b s].
    + split; [discriminate | intros (post & E); discriminate].
    + rewrite andb_true_iff, N.eqb_eq, IH. split.
      * intros [-> (post & ->)]. now exists post.
      * intros (post & E). injection E as -> ->. split; [reflexivity | now exists post].
Qed.

Lemma contains_spec (needle hay : str) :
  contains needle hay = true <-> exists pre post, hay = pre ++ needle ++ post.
Proof.
  induction hay as [|c hay IH]; simpl; rewrite orb_true_iff, startswith_spec.
  - split.
    + intros [(post & E)|H]; [|discriminate]. now exists [], post.
    + intros (pre & post & E). left.
      destruct pre; [now exists post | discriminate].
  - rewrite IH. split.
    + intros [(post & E)|(pre & post & ->)].
      * now exists [], post.
      * now exists (c :: pre), post.
    + intros (pre & post & E). destruct pre as [|d pre].
      * left. now exists post.
      * right. injection E as -> ->. now exists pre, post.
Qed.

End Location.

(** The test of line 99 keeps a candidate exactly when its path contains
    [.github/workflows] or [.github/actions] somewhere: at any depth, and
    whatever follows, file extension included. *)
Theorem location_test_is_a_substring_test (file_path : str) :
  wrong_location file_path = false <->
  (exists pre post, file_path = pre ++ u ".github/workflows" ++ post) \/
  (exists pre post, file_path = pre ++ u ".github/actions" ++ post).
Proof.
  unfold wrong_location.
  rewrite andb_false_iff, !negb_false_iff, !contains_spec. reflexivity.
Qed.

(** ** More on the extractor *)

Section ExtractorShape.

Lemma scan_containers_shape (ops : list yaml) (stepss : list (list entries)) :
  Forall2 container_steps ops stepss ->
  scan_containers ops = Returned (flat_map (flat_map step_uses) stepss).
Proof.
  induction 1 as [|c steps ops stepss (m & -> & G) _ IH]; simpl; [reflexivity|].
  rewrite G. simpl. rewrite scan_steps_mappings. simpl. now rewrite IH.
Qed.

Lemma step_uses_truthy (step : entries) :
  Forall (fun r => truthy (fst r) = true) (step_uses step).
Proof.
  unfold step_uses.
  destruct (truthy (get (u "uses") (Scalar SNull) step)) eqn:T; repeat constructor.
  exact T.
Qed.

Lemma scan_steps_truthy (steps : list yaml) (uses : uses_statements) :
  scan_steps steps = Returned uses ->
  Forall (fun r => truthy (fst r) = true) uses.
Proof.
  revert uses. induction steps as [|step steps IH]; intros uses; simpl.
  - intros E. injection E as <-. constructor.
  - destruct step as [| |m]; try discriminate.
    destruct (scan_steps steps) as [found|]; simpl; [|discriminate].
    intros E. injection E as <-. apply Forall_app. split.
    + apply step_uses_truthy.
    + now apply IH.
Qed.

Lemma scan_containers_truthy (ops : list yaml) (uses : uses_statements) :
  scan_containers ops = Returned uses ->
  Forall (fun r => truthy (fst r) = true) uses.
Proof.
  revert uses. induction ops as [|c ops IH]; intros uses; simpl.
  - intros E. injection E as <-. constructor.
  - destruct (scan_container c) as [found|] eqn:C; simpl; [|discriminate].
    destruct (scan_containers ops) as [more|]; simpl; [|discriminate].
    intros E. injection E as <-. apply Forall_app. split; [|now apply IH].
    destruct c as [| |m]; simpl in C; try discriminate.
    destruct (iterate _) as [steps|]; simpl in C; [|discriminate].
    now apply scan_steps_truthy with steps.
Qed.

Lemma uses_of_content_truthy (content : yaml) (uses : uses_statements) :
  uses_of_content content = Returned uses ->
  Forall (fun r => truthy (fst r) = true) uses.
Proof.
  unfold uses_of_content. destruct (negb (truthy content)).
  - intros E. injection E as <-. constructor.
  - destruct content as [| |m]; try discriminate.
    assert (S : (ops <~ step_operations m ;; scan_containers ops) = Returned uses ->
                Forall (fun r => truthy (fst r) = true) uses).
    { destruct (step_operations m) as [ops|]; simpl; [|discriminate].
      apply scan_containers_truthy. }
    destruct (lookup (u "jobs") m), (lookup (u "runs") m); try exact S.
    intros E. injection E as <-. constructor.
Qed.

End ExtractorShape.

(** For a document of the expected shape (each step container a mapping
    whose [steps] is absent or a sequence of mappings), the extractor
    prints nothing and returns the references container by container in
    document order, and within a container step by step in source order. *)
Theorem extraction_in_document_order
    (w : world) (file_path : str) (m : entries) (ops : list yaml)
    (stepss : list (list entries)) :
  yaml_load w file_path = inr (Map m) ->
  step_operations m = Returned ops ->
  Forall2 container_steps ops stepss ->
  get_uses_statements w file_path =
    ([], Returned (flat_map (flat_map step_uses) stepss)).
Proof.
  intros L O F.
  rewrite (get_uses_statements_loaded w file_path (Map m) L).
  now rewrite (uses_of_mapping m ops O), (scan_containers_shape ops stepss F).
Qed.

Lemma extraction_in_document_order_witness :
  get_uses_statements (one_file_world (inr (Map two_jobs))) ci_yml =
    ([], Returned [(Scalar (SStr sha_ref), 4)]).
Proof.
  refine (extraction_in_document_order
            (one_file_world (inr (Map two_jobs))) ci_yml two_jobs _
            [[[(key "uses", (Some 3, Scalar (SStr sha_ref)))];
              [(key "run", (Some 4, text "make"))]];
             []]
            eq_refl eq_refl _).
  constructor; [|constructor; [|constructor]].
  - eexists. split; reflexivity.
  - eexists. split; reflexivity.
Defined.

(** Whatever the document, every reference the extractor returns has a
    non-empty (truthy) value, and a call that returns has printed
    nothing. *)
Theorem extracted_references_are_not_empty
    (w : world) (file_path : str) (out : list event) (uses : uses_statements) :
  get_uses_statements w file_path = (out, Returned uses) ->
  out = [] /\ Forall (fun r => truthy (fst r) = true) uses.
Proof.
  unfold get_uses_statements.
  destruct (yaml_load w file_path) as [e|content]; [discriminate|].
  unfold lift. intros E. injection E as <- E. split; [reflexivity|].
  now apply uses_of_content_truthy with content.
Qed.

Lemma extracted_references_are_not_empty_witness :
  Forall (fun r => truthy (fst r) = true) [(Scalar (SStr tag_ref), 6)].
Proof.
  exact (proj2 (extracted_references_are_not_empty tag_world ci_yml []
                  [(Scalar (SStr tag_ref), 6)] eq_refl)).
Defined.

(** A job whose [steps:] key has an empty (null), boolean or integer value
    is not skipped: iterating it raises [TypeError] at line 58, and a run
    that scans the file ends there, after the startup banner, when that
    job is the first one. *)
Theorem steps_without_items_abort_the_run
    (w : world) (file_path : str) (m job : entries) (rest : list yaml) (v : scalar)
    (allow_unpinned : list str) (fail_on_error : bool) :
  yaml_load w file_path = inr (Map m) ->
  step_operations m = Returned (Map job :: rest) ->
  lookup (u "steps") job = Some (Scalar v) ->
  (forall s, v <> SStr s) ->
  skipped w file_path = false ->
  get_uses_statements w file_path = ([], Raised (TypeError 58)) /\
  validate_workflow_files w [file_path] allow_unpinned fail_on_error =
    ([PrintChecking], Raised (TypeError 58)).
Proof.
  intros L O S N K.
  assert (G : get_uses_statements w file_path = ([], Raised (TypeError 58))).
  { rewrite (get_uses_statements_loaded w file_path (Map m) L).
    rewrite (uses_of_mapping m _ O). simpl. unfold get. rewrite S.
    destruct v as [|b|z|s]; try reflexivity. now destruct (N s). }
  split; [exact G|].
  apply skipped_cases in K as [W I].
  unfold validate_workflow_files. simpl. now rewrite W, I, G.
Qed.

Lemma steps_without_items_abort_the_run_witness :
  validate_workflow_files (one_file_world (inr (Map null_steps))) [ci_yml] [] true =
    ([PrintChecking], Raised (TypeError 58)).
Proof.
  refine (proj2 (steps_without_items_abort_the_run
                   (one_file_world (inr (Map null_steps))) ci_yml null_steps
                   [(key "steps", (Some 2, Scalar SNull))] [] SNull [] true
                   eq_refl eq_refl eq_refl _ eq_refl)).
  intros s. discriminate.
Defined.

(** ** What a run prints *)

Section Lines.

Variable w : world.

Lemma bind_fst (A B : Type) (c : io A) (k : A -> io B) :
  fst (bind c k) =
  fst c ++ match snd c with Returned a => fst (k a) | Raised _ => [] end.
Proof. destruct c as [out [a|e]]; simpl; [reflexivity | now rewrite app_nil_r]. Qed.

Lemma bind_snd (A B : Type) (c : io A) (k : A -> io B) :
  snd (bind c k) =
  match snd c with Returned a => snd (k a) | Raised e => Raised e end.
Proof. now destruct c as [out [a|e]]. Qed.

Lemma bind_ret (A B : Type) (a : A) (k : A -> io B) : bind (ret a) k = k a.
Proof. unfold ret, bind. simpl. now destruct (k a). Qed.

Lemma bind_assoc (A B C : Type) (c : io A) (k : A -> io B) (k' : B -> io C) :
  bind (bind c k) k' = bind c (fun a => bind (k a) k').
Proof.
  destruct c as [out [a|e]]; simpl; [|reflexivity].
  destruct (k a) as [out' [b|e]]; simpl; [|reflexivity].
  now rewrite app_assoc.
Qed.

Lemma classify_violation (allow_unpinned : list str) (s : str) :
  classify w allow_unpinned s = Violation <->
  isdir w s = false /\ re_match SHA_PATTERN s = false /\ ~ In s allow_unpinned.
Proof.
  unfold classify. rewrite <- mem_In.
  destruct (isdir w s), (re_match SHA_PATTERN s), (mem s allow_unpinned);
    intuition congruence.
Qed.

Lemma classify_allowed (allow_unpinned : list str) (s : str) :
  classify w allow_unpinned s = Allowed <->
  isdir w s = false /\ re_match SHA_PATTERN s = false /\ In s allow_unpinned.
Proof.
  unfold classify. rewrite <- mem_In.
  destruct (isdir w s), (re_match SHA_PATTERN s), (mem s allow_unpinned);
    intuition congruence.
Qed.

Lemma check_non_string_silent (fail : bool) (fd : option Z) :
  fst (check_non_string w fail fd) = [] /\
  (snd (check_non_string w fail fd) = Returned fail \/
   exists e, snd (check_non_string w fail fd) = Raised e).
Proof.
  unfold check_non_string. destruct fd as [z|]; simpl; [|eauto].
  destruct (isdir_fd w z) as [[|]|]; simpl; eauto.
Qed.

(** What the loop body prints is the line the reference calls for. *)
Lemma check_use_fst (allow_unpinned : list str) (file_path : str) (fail : bool)
    (use : yaml * nat) :
  fst (check_use w allow_unpinned file_path fail use) =
  line_of_reference w allow_unpinned file_path use.
Proof.
  destruct use as [v n]. unfold check_use, line_of_reference. cbn [fst snd].
  destruct v as [[|b|z|s]|items|m]; try apply check_non_string_silent.
  now destruct (classify w allow_unpinned s).
Qed.

Lemma check_uses_lines (allow_unpinned : list str) (file_path : str)
    (uses : uses_statements) (e : event) :
  forall fail,
  In e (fst (check_uses w allow_unpinned file_path uses fail)) ->
  exists use, In use uses /\ In e (line_of_reference w allow_unpinned file_path use).
Proof.
  induction uses as [|use uses IH]; intros fail; simpl; [intros []|].
  rewrite bind_fst, check_use_fst. intros I. apply in_app_or in I as [I|I].
  - exists use. auto.
  - destruct (snd (check_use w allow_unpinned file_path fail use)) as [f1|]; [|destruct I].
    apply IH in I as (use' & I' & L). exists use'. auto.
Qed.

Lemma references_returned (file_path : str) (out : list event) (uses : uses_statements) :
  get_uses_statements w file_path = (out, Returned uses) ->
  out = [] /\ references w file_path = uses.
Proof.
  intros G. unfold references. rewrite G. simpl. split; [|reflexivity].
  unfold get_uses_statements in G.
  destruct (yaml_load w file_path); [discriminate | now injection G].
Qed.

(** Every line the loop over the files prints is a parse warning of a
    scanned file, or a line that a reference of a scanned file calls for. *)
Lemma check_files_lines (allow_unpinned files : list str) (e : event) :
  forall fail,
  In e (fst (check_files w allow_unpinned files fail)) ->
  (exists f message,
     In f files /\ skipped w f = false /\ yaml_load w f = inl message /\
     e = WarnErrorProcessing f message) \/
  (exists f use,
     In f files /\ skipped w f = false /\ In use (references w f) /\
     In e (line_of_reference w allow_unpinned f use)).
Proof.
  induction files as [|f rest IH]; intros fail; simpl; [intros []|].
  assert (Later : forall fl,
             In e (fst (check_files w allow_unpinned rest fl)) ->
             (exists f' message,
                (f = f' \/ In f' rest) /\ skipped w f' = false /\
                yaml_load w f' = inl message /\ e = WarnErrorProcessing f' message) \/
             (exists f' use,
                (f = f' \/ In f' rest) /\ skipped w f' = false /\
                In use (references w f') /\
                In e (line_of_reference w allow_unpinned f' use))).
  { intros fl I. apply IH in I as [(f' & msg & I & H)|(f' & use & I & H)].
    - left. exists f', msg. auto.
    - right. exists f', use. auto. }
  destruct (wrong_location f) eqn:W; [apply Later|].
  destruct (isfile w f) eqn:F; simpl; [|apply Later].
  assert (K : skipped w f = false) by (apply skipped_cases; auto).
  rewrite bind_fst. intros I. apply in_app_or in I as [I|I].
  - left. unfold get_uses_statements in I.
    destruct (yaml_load w f) as [msg|content] eqn:L; simpl in I; [|destruct I].
    destruct I as [<-|[]]. exists f, msg. auto.
  - destruct (get_uses_statements w f) as [out [uses|]] eqn:G; simpl in I; [|destruct I].
    apply references_returned in G as [_ R].
    rewrite bind_fst in I. apply in_app_or in I as [I|I].
    + apply check_uses_lines in I as (use & I' & L).
      right. exists f, use. rewrite R. auto.
    + destruct (snd (check_uses w allow_unpinned f uses fail)) as [f1|]; [|destruct I].
      now apply Later in I.
Qed.

Lemma line_of_reference_cases (allow_unpinned : list str) (file_path : str)
    (use : yaml * nat) (e : event) :
  In e (line_of_reference w allow_unpinned file_path use) ->
  exists s,
    use = (Scalar (SStr s), snd use) /\
    ((e = PrintIgnoring file_path (snd use) s /\
      classify w allow_unpinned s = Allowed) \/
     (e = PrintNotPinned file_path (snd use) s /\
      classify w allow_unpinned s = Violation)).
Proof.
  destruct use as [v n]. unfold line_of_reference. cbn [fst snd].
  destruct v as [[|b|z|s]|items|m]; try (intros []).
  destruct (classify w allow_unpinned s) eqn:C; intros I; try destruct I as [<-|[]];
    try destruct I; exists s; auto.
Qed.

(** The output of a run, in parts. *)
Lemma validate_fst (changed_files allow_unpinned files : list str) (fail_on_error : bool) :
  snd (candidates w changed_files) = Returned files ->
  fst (validate_workflow_files w changed_files allow_unpinned fail_on_error) =
  PrintChecking :: fst (candidates w changed_files) ++
  fst (check_files w allow_unpinned files false) ++
  match snd (check_files w allow_unpinned files false) with
  | Returned fail => fst (conclude fail fail_on_error)
  | Raised _ => []
  end.
Proof.
  intros C. unfold validate_workflow_files.
  rewrite bind_fst. simpl. rewrite bind_fst, C, bind_fst. reflexivity.
Qed.

Lemma validate_snd (changed_files allow_unpinned files : list str) (fail_on_error : bool) :
  snd (candidates w changed_files) = Returned files ->
  snd (validate_workflow_files w changed_files allow_unpinned fail_on_error) =
  match snd (check_files w allow_unpinned files false) with
  | Returned fail => snd (conclude fail fail_on_error)
  | Raised e => Raised e
  end.
Proof.
  intros C. unfold validate_workflow_files.
  rewrite bind_snd. simpl. rewrite bind_snd, C, bind_snd. reflexivity.
Qed.

Lemma candidates_cases (changed_files : list str) :
  (changed_files = [] /\
   candidates w changed_files = ([PrintFilesToLookAt (discover w)], Returned (discover w))) \/
  (changed_files <> [] /\ candidates w changed_files = ([], Returned changed_files)).
Proof.
  destruct changed_files; [left | right]; split; try reflexivity. discriminate.
Qed.

Lemma conclude_cases (fail fail_on_error : bool) :
  conclude fail fail_on_error =
  if fail
  then ([PrintSomeWorkflows; PrintBestPractice],
        Returned (if fail_on_error then 1%Z else 0%Z))
  else ([PrintAllPinned], Returned 0%Z).
Proof. now destruct fail, fail_on_error. Qed.

End Lines.

(** No line of a run is unfounded.  A violation line names a reference of
    a candidate that is scanned, at the line the extractor gave, which is
    no directory, does not match the pin pattern and is not on the allow
    list; an "Ignoring" line names such a reference that is on the allow
    list; a warning names a scanned candidate that did not load.  This
    holds of whatever is printed, also by a run that ends in an
    exception. *)
Theorem diagnostics_are_justified
    (w : world) (changed_files allow_unpinned files : list str) (fail_on_error : bool) :
  snd (candidates w changed_files) = Returned files ->
  (forall f n s,
     In (PrintNotPinned f n s)
        (fst (validate_workflow_files w changed_files allow_unpinned fail_on_error)) ->
     In f files /\ skipped w f = false /\
     In (Scalar (SStr s), n) (references w f) /\
     isdir w s = false /\ re_match SHA_PATTERN s = false /\ ~ In s allow_unpinned) /\
  (forall f n s,
     In (PrintIgnoring f n s)
        (fst (validate_workflow_files w changed_files allow_unpinned fail_on_error)) ->
     In f files /\ skipped w f = false /\
     In (Scalar (SStr s), n) (references w f) /\
     isdir w s = false /\ re_match SHA_PATTERN s = false /\ In s allow_unpinned) /\
  (forall f message,
     In (WarnErrorProcessing f message)
        (fst (validate_workflow_files w changed_files allow_unpinned fail_on_error)) ->
     In f files /\ skipped w f = false /\ yaml_load w f = inl message).
Proof.
  intros C.
  assert (Loop : forall e,
             In e (fst (validate_workflow_files w changed_files allow_unpinned fail_on_error)) ->
             (forall f n s, e <> PrintNotPinned f n s) /\
             (forall f n s, e <> PrintIgnoring f n s) /\
             (forall f message, e <> WarnErrorProcessing f message) \/
             In e (fst (check_files w allow_unpinned files false))).
  { intros e. rewrite (validate_fst w changed_files allow_unpinned files fail_on_error C).
    intros [<-|I]; [left; repeat split; discriminate|].
    apply in_app_or in I as [I|I].
    { left. destruct (candidates_cases w changed_files) as [[_ E]|[_ E]];
        rewrite E in I; simpl in I; [|destruct I].
      destruct I as [<-|[]]. repeat split; discriminate. }
    apply in_app_or in I as [I|I]; [now right|].
    left. destruct (snd (check_files w allow_unpinned files false)) as [fail|];
      [|destruct I].
    rewrite conclude_cases in I.
    destruct fail; simpl in I;
      repeat (destruct I as [<-|I]; [repeat split; discriminate|]); destruct I. }
  split; [|split].
  - intros f n s I. apply Loop in I as [(N & _)|I]; [now destruct (N f n s)|].
    apply check_files_lines in I as [(f' & msg & _ & _ & _ & E)|(f' & use & I & K & R & L)];
      [discriminate|].
    apply line_of_reference_cases in L as (s' & U & [[E _]|[E V]]); [discriminate|].
    injection E as <- -> <-. apply classify_violation in V.
    rewrite U in R. auto.
  - intros f n s I. apply Loop in I as [(_ & N & _)|I]; [now destruct (N f n s)|].
    apply check_files_lines in I as [(f' & msg & _ & _ & _ & E)|(f' & use & I & K & R & L)];
      [discriminate|].
    apply line_of_reference_cases in L as (s' & U & [[E A]|[E _]]); [|discriminate].
    injection E as <- -> <-. apply classify_allowed in A.
    rewrite U in R. auto.
  - intros f msg I. apply Loop in I as [(_ & _ & N)|I]; [now destruct (N f msg)|].
    apply check_files_lines in I as [(f' & msg' & I & K & L & E)|(f' & use & _ & _ & _ & L)].
    + injection E as <- <-. auto.
    + apply line_of_reference_cases in L as (s' & _ & [[E _]|[E _]]); discriminate.
Qed.

Lemma diagnostics_are_justified_witness :
  In ci_yml [ci_yml] /\ skipped tag_world ci_yml = false /\
  In (Scalar (SStr tag_ref), 6) (references tag_world ci_yml) /\
  isdir tag_world tag_ref = false /\ re_match SHA_PATTERN tag_ref = false /\
  ~ In tag_ref [].
Proof.
  assert (I : In (PrintNotPinned ci_yml 6 tag_ref)
                 (fst (validate_workflow_files tag_world [ci_yml] [] true))).
  { right. left. reflexivity. }
  exact (proj1 (diagnostics_are_justified tag_world [ci_yml] [] [ci_yml] true eq_refl)
           ci_yml 6 tag_ref I).
Defined.

Section Banners.

Variable w : world.
Variable allow_unpinned : list str.

Lemma check_files_flag (files : list str) (out : list event) (fail : bool) :
  check_files w allow_unpinned files false = (out, Returned fail) ->
  (fail = true <-> exists f n s, In (PrintNotPinned f n s) out).
Proof.
  intros E. pose proof (check_files_returned w allow_unpinned files false fail out E)
    as [F P].
  rewrite F. split.
  - intros [H|(f & n & s & V)]; [discriminate|]. exists f, n, s. now apply P.
  - intros (f & n & s & I). right. exists f, n, s.
    assert (I' : In (PrintNotPinned f n s)
                    (fst (check_files w allow_unpinned files false)))
      by now rewrite E.
    apply check_files_lines in I' as [(f' & msg & _ & _ & _ & X)|(f' & use & I' & K & R & L)];
      [discriminate|].
    apply line_of_reference_cases in L as (s' & U & [[X _]|[X V]]); [discriminate|].
    injection X as <- -> <-. rewrite U in R.
    split; [exact I'|]. split; [exact K|].
    exists (references w f). split; [|auto].
    unfold references in *.
    destruct (snd (get_uses_statements w f)); [reflexivity | destruct R].
Qed.

Lemma check_files_no_banner (files : list str) (fail : bool) (e : event) :
  In e (fst (check_files w allow_unpinned files fail)) ->
  e <> PrintAllPinned /\ e <> PrintSomeWorkflows /\ e <> PrintBestPractice /\
  e <> PrintChecking /\ forall l, e <> PrintFilesToLookAt l.
Proof.
  intros I.
  apply check_files_lines in I as [(f & msg & _ & _ & _ & ->)|(f & use & _ & _ & _ & L)].
  - repeat split; try (intros; discriminate).
  - apply line_of_reference_cases in L as (s & _ & [[-> _]|[-> _]]);
      repeat split; try (intros; discriminate).
Qed.

End Banners.

(** A run that returns: its flag, its code and where its banner lines
    come from. *)
Lemma validate_returned
    (w : world) (changed_files allow_unpinned : list str) (fail_on_error : bool)
    (out : list event) (code : Z) :
  validate_workflow_files w changed_files allow_unpinned fail_on_error
    = (out, Returned code) ->
  exists fail,
    (fail = true <-> exists f n s, In (PrintNotPinned f n s) out) /\
    Returned code = snd (conclude fail fail_on_error) /\
    (forall e,
       e = PrintAllPinned \/ e = PrintSomeWorkflows \/ e = PrintBestPractice ->
       (In e out <-> In e (fst (conclude fail fail_on_error)))).
Proof.
  intros E.
  destruct (candidates_returns w changed_files) as (o0 & files & C).
  assert (C' : snd (candidates w changed_files) = Returned files) by now rewrite C.
  pose proof (validate_fst w changed_files allow_unpinned files fail_on_error C') as F.
  pose proof (validate_snd w changed_files allow_unpinned files fail_on_error C') as S.
  rewrite E in F, S. simpl in F, S. rewrite C in F. simpl in F.
  destruct (check_files w allow_unpinned files false) as [o1 [fail|e]] eqn:L;
    simpl in F, S; [|discriminate].
  pose proof (check_files_flag w allow_unpinned files o1 fail L) as Flag.
  assert (NB : forall e, In e o1 ->
                 e <> PrintAllPinned /\ e <> PrintSomeWorkflows /\
                 e <> PrintBestPractice /\ e <> PrintChecking /\
                 forall l, e <> PrintFilesToLookAt l).
  { intros e I. apply (check_files_no_banner w allow_unpinned files false).
    now rewrite L. }
  assert (O0 : forall e, In e o0 -> exists l, e = PrintFilesToLookAt l).
  { intros e I. destruct (candidates_cases w changed_files) as [[_ X]|[_ X]];
      rewrite X in C; injection C as <- _; [|destruct I].
    destruct I as [<-|[]]. eauto. }
  exists fail. split; [|split; [exact S|]].
  - rewrite Flag. subst out. split; intros (f & n & s & I); exists f, n, s.
    + right. apply in_or_app. right. apply in_or_app. now left.
    + destruct I as [I|I]; [discriminate|].
      apply in_app_or in I as [I|I]; [apply O0 in I as (l & I); discriminate|].
      apply in_app_or in I as [I|I]; [exact I|].
      rewrite conclude_cases in I. destruct fail; simpl in I;
        repeat (destruct I as [I|I]; [discriminate|]); destruct I.
  - intros e B. subst out. split.
    + intros [I|I]; [destruct B as [-> | [-> | ->]]; discriminate|].
      apply in_app_or in I as [I|I];
        [apply O0 in I as (l & ->); destruct B as [B|[B|B]]; discriminate|].
      apply in_app_or in I as [I|I]; [|exact I].
      apply NB in I as (N1 & N2 & N3 & _). destruct B as [B|[B|B]]; congruence.
    + intros I. right. apply in_or_app. right. apply in_or_app. now right.
Qed.

(** The closing banner agrees with the lines above it.  When the run
    returns, the success banner is printed exactly when no violation line
    was, the failure banner and the remediation hint exactly when one was,
    and an exit code 1 comes with a violation line. *)
Theorem banner_agrees_with_lines
    (w : world) (changed_files allow_unpinned : list str) (fail_on_error : bool)
    (out : list event) (code : Z) :
  validate_workflow_files w changed_files allow_unpinned fail_on_error
    = (out, Returned code) ->
  (In PrintAllPinned out <-> ~ exists f n s, In (PrintNotPinned f n s) out) /\
  (In PrintSomeWorkflows out <-> exists f n s, In (PrintNotPinned f n s) out) /\
  (In PrintBestPractice out <-> In PrintSomeWorkflows out) /\
  (code = 1%Z -> exists f n s, In (PrintNotPinned f n s) out).
Proof.
  intros E.
  destruct (validate_returned w changed_files allow_unpinned fail_on_error out code E)
    as (fail & Flag & S & Banner).
  rewrite <- Flag, !Banner by auto. rewrite conclude_cases in *.
  destruct fail; simpl in *.
  - clear - S. intuition (try discriminate; auto).
  - assert (Z0 : code = 0%Z) by now injection S.
    clear - Z0. subst code. intuition (try discriminate; auto).
Qed.

Lemma banner_agrees_with_lines_witness :
  In PrintSomeWorkflows
     [PrintChecking; PrintNotPinned ci_yml 6 tag_ref; PrintSomeWorkflows; PrintBestPractice]
  <-> exists f n s,
        In (PrintNotPinned f n s)
           [PrintChecking; PrintNotPinned ci_yml 6 tag_ref;
            PrintSomeWorkflows; PrintBestPractice].
Proof.
  exact (proj1 (proj2 (banner_agrees_with_lines tag_world [ci_yml] [] true
                         [PrintChecking; PrintNotPinned ci_yml 6 tag_ref;
                          PrintSomeWorkflows; PrintBestPractice] 1%Z eq_refl))).
Defined.

Section ClosedForm.

Variable w : world.
Variable allow_unpinned : list str.



End ClosedForm.



(** Scanning a list of candidates in two parts, the failure flag carried
    from the first part to the second, is scanning the whole list. *)
Theorem batches_compose (w : world) (allow_unpinned first second : list str) (fail : bool) :
  check_files w allow_unpinned (first ++ second) fail =
  (fail' <- check_files w allow_unpinned first fail ;;
   check_files w allow_unpinned second fail').
Proof.
  revert fail. induction first as [|f rest IH]; intros fail; cbn [check_files app].
  - now rewrite bind_ret.
  - destruct (wrong_location f); [apply IH|].
    destruct (negb (isfile w f)); [apply IH|].
    rewrite bind_assoc. apply bind_ext. intros uses.
    rewrite bind_assoc. apply bind_ext. intros fail'. apply IH.
Qed.

(** A reference that is not a string is never reported: the loop body
    prints nothing for it, and either raises or leaves the failure flag as
    it was. *)
Theorem non_string_reference_is_not_reported
    (w : world) (allow_unpinned : list str) (file_path : str) (fail : bool)
    (uses_value : yaml) (line_num : nat) :
  (forall s, uses_value <> Scalar (SStr s)) ->
  fst (check_use w allow_unpinned file_path fail (uses_value, line_num)) = [] /\
  (snd (check_use w allow_unpinned file_path fail (uses_value, line_num)) = Returned fail \/
   exists e,
     snd (check_use w allow_unpinned file_path fail (uses_value, line_num)) = Raised e).
Proof.
  intros N. unfold check_use.
  destruct uses_value as [[|b|z|s]|items|m]; try apply check_non_string_silent.
  now destruct (N s).
Qed.

Lemma non_string_reference_is_not_reported_witness :
  fst (check_use tag_world [] ci_yml false (Scalar (SInt 3), 6)) = [].
Proof.
  refine (proj1 (non_string_reference_is_not_reported tag_world [] ci_yml false
                   (Scalar (SInt 3)) 6 _)).
  intros s. discriminate.
Defined.

(** ** The allow list and the exit status *)

Section AllowList.

Variable w : world.

Lemma check_use_raises_alike (a a' : list str) (f f' : str) (fl fl' : bool)
    (use : yaml * nat) (e : exn) :
  snd (check_use w a f fl use) = Raised e ->
  snd (check_use w a' f' fl' use) = Raised e.
Proof.
  destruct use as [v n]. unfold check_use, check_non_string.
  destruct v as [[|b|z|s]|items|m]; simpl; try (intros E; exact E).
  - destruct (isdir_fd w (Z.b2z b)) as [[|]|]; simpl; try (intros E; exact E).
    discriminate.
  - destruct (isdir_fd w z) as [[|]|]; simpl; try (intros E; exact E).
    discriminate.
  - destruct (classify w a s); discriminate.
Qed.

Lemma check_uses_raises_alike (a a' : list str) (f : str) (uses : uses_statements)
    (e : exn) :
  forall fl fl',
  snd (check_uses w a f uses fl) = Raised e ->
  snd (check_uses w a' f uses fl') = Raised e.
Proof.
  induction uses as [|use uses IH]; intros fl fl'; simpl; [discriminate|].
  rewrite !bind_snd.
  destruct (snd (check_use w a f fl use)) as [f1|e1] eqn:E1.
  - destruct (snd (check_use w a' f fl' use)) as [f1'|e1'] eqn:E1'.
    + apply IH.
    + apply (check_use_raises_alike a' a f f fl' fl) in E1'. congruence.
  - intros E. injection E as ->.
    now rewrite (check_use_raises_alike a a' f f fl fl' use e E1).
Qed.

Lemma check_files_raises_alike (a a' files : list str) (e : exn) :
  forall fl fl',
  snd (check_files w a files fl) = Raised e ->
  snd (check_files w a' files fl') = Raised e.
Proof.
  induction files as [|f rest IH]; intros fl fl'; simpl; [discriminate|].
  destruct (wrong_location f); [apply IH|].
  destruct (negb (isfile w f)); [apply IH|].
  rewrite !bind_snd.
  destruct (snd (get_uses_statements w f)) as [uses|e0]; [|exact (fun E => E)].
  rewrite !bind_snd.
  destruct (snd (check_uses w a f uses fl)) as [f1|e1] eqn:E1.
  - destruct (snd (check_uses w a' f uses fl')) as [f1'|e1'] eqn:E1'.
    + apply IH.
    + apply (check_uses_raises_alike a' a f uses e1' fl' fl) in E1'. congruence.
  - intros E. injection E as ->.
    now rewrite (check_uses_raises_alike a a' f uses e fl fl' E1).
Qed.

Lemma violation_at_allow (a a' files : list str) (f : str) (n : nat) (s : str) :
  incl a a' ->
  violation_at w a' files f n s -> violation_at w a files f n s.
Proof.
  intros I (F & K & uses & G & U & V).
  split; [exact F|]. split; [exact K|]. exists uses. split; [exact G|].
  split; [exact U|].
  apply classify_violation in V as (D & M & N). apply classify_violation.
  split; [exact D|]. split; [exact M|]. intros X. apply N. now apply I.
Qed.

End AllowList.

(** Adding references to the allow list never makes a run fail: the
    violations under the larger list are violations under the smaller
    one, the run raises the same exception if it raises at all, and a run
    that returned 0 still returns 0. *)
Theorem larger_allow_list_never_fails_more
    (w : world) (changed_files smaller larger files : list str) (fail_on_error : bool) :
  snd (candidates w changed_files) = Returned files ->
  incl smaller larger ->
  (forall f n s,
     violation_at w larger files f n s -> violation_at w smaller files f n s) /\
  (forall e,
     snd (validate_workflow_files w changed_files smaller fail_on_error) = Raised e ->
     snd (validate_workflow_files w changed_files larger fail_on_error) = Raised e) /\
  (snd (validate_workflow_files w changed_files smaller fail_on_error) = Returned 0%Z ->
   snd (validate_workflow_files w changed_files larger fail_on_error) = Returned 0%Z).
Proof.
  intros C I.
  rewrite !(validate_snd w changed_files _ files fail_on_error C).
  split; [intros f n s; now apply violation_at_allow|]. split.
  - intros e.
    destruct (snd (check_files w smaller files false)) as [fail|e0] eqn:S.
    + rewrite conclude_cases. destruct fail; discriminate.
    + intros E. injection E as ->.
      now rewrite (check_files_raises_alike w smaller larger files e false false S).
  - destruct (check_files w smaller files false) as [o1 [fail|e0]] eqn:S;
      simpl; [|discriminate].
    destruct (check_files w larger files false) as [o2 [fail'|e0]] eqn:L; simpl.
    + apply check_files_returned in S as [FS _].
      apply check_files_returned in L as [FL _].
      rewrite !conclude_cases.
      destruct fail'; [|destruct fail; reflexivity].
      assert (T : fail = true).
      { apply FS. right. destruct (proj1 FL eq_refl) as [H|(f & n & s & V)];
          [discriminate|].
        exists f, n, s. now apply (violation_at_allow w smaller larger). }
      now rewrite T.
    + assert (R : snd (check_files w larger files false) = Raised e0) by now rewrite L.
      apply (check_files_raises_alike w larger smaller files e0 false false) in R.
      rewrite S in R. discriminate.
Qed.

Lemma larger_allow_list_never_fails_more_witness :
  snd (validate_workflow_files tag_world [ci_yml] [sha_ref; tag_ref] true) = Returned 0%Z.
Proof.
  refine (proj2 (proj2 (larger_allow_list_never_fails_more tag_world [ci_yml]
                          [tag_ref] [sha_ref; tag_ref] [ci_yml] true eq_refl _))
            eq_refl).
  intros x [<-|[]]. right. now left.
Defined.

(** The exit status of the process is 0 or 1.  An exit status 0 means that
    no exception was raised, and, when the failure flag is enabled, that
    no violation line was printed. *)
Theorem zero_exit_status_means_no_violation (w : world) :
  (exit_status (main w) = 0%Z \/ exit_status (main w) = 1%Z) /\
  (exit_status (main w) = 0%Z ->
   exists out,
     main w = (out, Returned 0%Z) /\
     (main_fail_on_error w = true -> forall f n s, ~ In (PrintNotPinned f n s) out)).
Proof.
  unfold exit_status, main.
  destruct (validate_workflow_files w (main_changed_files w) (main_allow_unpinned w)
              (main_fail_on_error w)) as [out [code|e]] eqn:E; simpl.
  - destruct (validate_returned w _ _ _ out code E) as (fail & Flag & S & _).
    rewrite conclude_cases in S. split.
    + destruct fail, (main_fail_on_error w); simpl in S; injection S as ->; auto.
    + intros ->. exists out. split; [reflexivity|].
      intros T f n s I. rewrite T in S.
      destruct fail; simpl in S; [discriminate|].
      assert (X : false = true) by (apply Flag; now exists f, n, s). discriminate.
  - split; [now right | discriminate].
Qed.

(** Discovery happens exactly when [ALL_CHANGED_FILES] is unset or holds
    nothing but white space, and the list of files is printed exactly
    then: it is the discovered list. *)
Theorem discovery_iff_blank (w : world) :
  (main_changed_files w = [] <->
   forallb isspace (environ_get w (u "ALL_CHANGED_FILES") []) = true) /\
  (forall l,
     In (PrintFilesToLookAt l) (fst (main w)) <->
     main_changed_files w = [] /\ l = discover w).
Proof.
  split.
  - unfold main_changed_files. rewrite words_is_split. unfold split.
    rewrite split_from_nil. tauto.
  - intros l. unfold main.
    destruct (candidates_returns w (main_changed_files w)) as (o0 & files & C).
    assert (C' : snd (candidates w (main_changed_files w)) = Returned files)
      by now rewrite C.
    rewrite (validate_fst w _ (main_allow_unpinned w) files (main_fail_on_error w) C').
    rewrite C. cbn [fst].
    assert (Rest : ~ In (PrintFilesToLookAt l)
                     (fst (check_files w (main_allow_unpinned w) files false) ++
                      match snd (check_files w (main_allow_unpinned w) files false) with
                      | Returned fail => fst (conclude fail (main_fail_on_error w))
                      | Raised _ => []
                      end)).
    { intros I. apply in_app_or in I as [I|I].
      - apply check_files_no_banner in I as (_ & _ & _ & _ & N). now apply (N l).
      - destruct (snd (check_files w (main_allow_unpinned w) files false)) as [fail|];
          [|destruct I].
        rewrite conclude_cases in I. destruct fail; simpl in I;
          repeat (destruct I as [I|I]; [discriminate|]); destruct I. }
    destruct (candidates_cases w (main_changed_files w)) as [[M X]|[M X]];
      rewrite X in C; injection C as <- <-.
    + split.
      * intros [I|[I|I]]; [discriminate | injection I as <-; auto | now destruct Rest].
      * intros [_ ->]. right. now left.
    + split.
      * intros [I|I]; [discriminate | now destruct Rest].
      * intros [M' _]. contradiction.
Qed.

(** ** The exit code of a run that returns *)





(** ** The output of the extractor, step by step *)

Section ExtractorOutput.

Lemma scan_steps_returned (steps : list yaml) (found : uses_statements) :
  scan_steps steps = Returned found <->
  exists mappings, steps = map Map mappings /\ found = flat_map step_uses mappings.
Proof.
  split.
  - revert found. induction steps as [|step steps IH]; intros found; simpl.
    + intros E. injection E as <-. now exists [].
    + destruct step as [| |m]; try discriminate.
      destruct (scan_steps steps) as [rest|]; simpl; [|discriminate].
      intros E. injection E as <-.
      destruct (IH rest eq_refl) as (mappings & -> & ->).
      now exists (m :: mappings).
  - intros (mappings & -> & ->). apply scan_steps_mappings.
Qed.

Lemma scan_container_returned (step_data : yaml) (found : uses_statements) :
  scan_container step_data = Returned found <->
  exists steps, steps_of_container step_data steps /\ found = flat_map step_uses steps.
Proof.
  unfold steps_of_container. split.
  - destruct step_data as [| |m]; simpl; try discriminate.
    destruct (iterate (get (u "steps") (Seq []) m)) as [steps|] eqn:I; simpl;
      [|discriminate].
    intros E. apply scan_steps_returned in E as (mappings & -> & ->).
    exists mappings. split; [|reflexivity]. now exists m.
  - intros (steps & (m & -> & I) & ->). simpl. rewrite I. simpl.
    apply scan_steps_mappings.
Qed.

Lemma scan_containers_returned (ops : list yaml) (uses : uses_statements) :
  scan_containers ops = Returned uses <->
  exists stepss,
    Forall2 steps_of_container ops stepss /\
    uses = flat_map (flat_map step_uses) stepss.
Proof.
  split.
  - revert uses. induction ops as [|c ops IH]; intros uses; simpl.
    + intros E. injection E as <-. exists []. split; [constructor | reflexivity].
    + destruct (scan_container c) as [found|] eqn:C; simpl; [|discriminate].
      destruct (scan_containers ops) as [more|]; simpl; [|discriminate].
      intros E. injection E as <-.
      apply scan_container_returned in C as (steps & S & ->).
      destruct (IH more eq_refl) as (stepss & F & ->).
      exists (steps :: stepss). split; [now constructor | reflexivity].
  - intros (stepss & F & ->). induction F as [|c steps ops stepss S _ IH]; simpl.
    + reflexivity.
    + assert (C : scan_container c = Returned (flat_map step_uses steps)).
      { apply scan_container_returned. now exists steps. }
      rewrite C, IH. reflexivity.
Qed.

Lemma uses_of_mapping_raised (m : entries) (e : exn) :
  step_operations m = Raised e -> uses_of_content (Map m) = Raised e.
Proof.
  unfold uses_of_content, step_operations.
  destruct (lookup (u "runs") m) as [r|] eqn:R; [discriminate|].
  destruct (lookup (u "jobs") m) as [j|] eqn:J; [|discriminate].
  intros E. rewrite E.
  destruct m as [|entry m]; [discriminate|]. reflexivity.
Qed.

Lemma uses_of_content_returned (content : yaml) (uses : uses_statements) :
  uses_of_content content = Returned uses <->
  exists stepss,
    scanned_step_lists content stepss /\
    uses = flat_map (flat_map step_uses) stepss.
Proof.
  unfold scanned_step_lists. split.
  - destruct (truthy content) eqn:T.
    + destruct content as [v|items|m];
        try (rewrite uses_of_non_mapping by (exact T || reflexivity); discriminate).
      destruct (step_operations m) as [ops|e] eqn:O.
      * rewrite (uses_of_mapping m ops O). intros E.
        apply scan_containers_returned in E as (stepss & F & ->).
        exists stepss. split; [|reflexivity]. right. now exists m, ops.
      * rewrite (uses_of_mapping_raised m e O). discriminate.
    + rewrite (uses_of_falsy content T). intros E. injection E as <-.
      exists []. split; [left; auto | reflexivity].
  - intros (stepss & [[T ->]|(m & ops & -> & O & F)] & ->).
    + now apply uses_of_falsy.
    + rewrite (uses_of_mapping m ops O). apply scan_containers_returned.
      now exists stepss.
Qed.

End ExtractorOutput.

(** C7 (as amended).  Whenever the extractor returns for a document, its
    output is exactly what the steps of the scanned step lists contribute,
    container by container and step by step; a step contributes a
    reference exactly when it carries a [uses] field with a non-empty
    (truthy) value, namely that value with the line of the key: a step
    lacking the key, or whose value is empty, contributes nothing.  The
    extractor returns exactly when the document has scanned step lists,
    that is, when every container and every step it goes through is a
    mapping. *)
Theorem extractor_output_is_the_uses_fields
    (w : world) (file_path : str) (content : yaml) :
  yaml_load w file_path = inr content ->
  (forall uses,
     get_uses_statements w file_path = ([], Returned uses) <->
     exists stepss,
       scanned_step_lists content stepss /\
       uses = flat_map (flat_map step_uses) stepss) /\
  (forall step,
     (lookup (u "uses") step = None -> step_uses step = []) /\
     (forall v, lookup (u "uses") step = Some v -> truthy v = false ->
                step_uses step = []) /\
     (forall v, lookup (u "uses") step = Some v -> truthy v = true ->
                step_uses step = [(v, line_num_of step)]) /\
     (forall s, lookup (u "uses") step = Some (Scalar (SStr s)) ->
                (step_uses step <> [] <-> s <> []))) /\
  (forall uses stepss,
     get_uses_statements w file_path = ([], Returned uses) ->
     scanned_step_lists content stepss ->
     forall r,
       In r uses <->
       exists steps step v,
         In steps stepss /\ In step steps /\
         lookup (u "uses") step = Some v /\ truthy v = true /\
         r = (v, line_num_of step)).
Proof.
  intros L.
  rewrite (get_uses_statements_loaded w file_path content L).
  assert (Out : forall uses,
             ([]:list event, uses_of_content content) = ([], Returned uses) <->
             exists stepss,
               scanned_step_lists content stepss /\
               uses = flat_map (flat_map step_uses) stepss).
  { intros uses. rewrite <- uses_of_content_returned. split.
    - intros E. now injection E.
    - intros ->. reflexivity. }
  split; [exact Out|]. split.
  - intros step. apply (steps_contribute_their_uses []).
  - intros uses stepss E S r.
    assert (E' : uses_of_content content
                 = Returned (flat_map (flat_map step_uses) stepss)).
    { apply uses_of_content_returned. now exists stepss. }
    injection E as E. rewrite E' in E. injection E as <-.
    rewrite in_flat_map. split.
    + intros (steps & I & R).
      apply (proj2 (proj2 (proj2 (steps_contribute_their_uses steps)))) in R
        as (step & v & I' & H).
      exists steps, step, v. tauto.
    + intros (steps & step & v & I & I' & H). exists steps. split; [exact I|].
      apply (proj2 (proj2 (proj2 (steps_contribute_their_uses steps)))).
      exists step, v. tauto.
Qed.

Lemma extractor_output_is_the_uses_fields_witness :
  get_uses_statements tag_world ci_yml = ([], Returned [(Scalar (SStr tag_ref), 6)]) <->
  exists stepss,
    scanned_step_lists
      (workflow_of (Seq [step_with_uses 5 (Scalar (SStr tag_ref))])) stepss /\
    [(Scalar (SStr tag_ref), 6)] = flat_map (flat_map step_uses) stepss.
Proof.
  exact (proj1 (extractor_output_is_the_uses_fields tag_world ci_yml
                  (workflow_of (Seq [step_with_uses 5 (Scalar (SStr tag_ref))]))
                  eq_refl)
           [(Scalar (SStr tag_ref), 6)]).
Defined.

(** C7, as stated, fails: in [malformed_step_world] the first step of the
    scanned step list carries [uses: actions/checkout@v4], a non-empty
    value, yet it contributes no reference to the extractor's output,
    because the step after it is not a mapping and the extractor raises at
    line 59 instead of returning. *)
Lemma step_before_a_malformed_step_contributes_nothing :
  iterate (Seq [step_with_uses 5 (Scalar (SStr tag_ref)); text "oops"])
    = Returned [step_with_uses 5 (Scalar (SStr tag_ref)); text "oops"] /\
  (lookup (u "uses") [(key "uses", (Some 5, Scalar (SStr tag_ref)))]
     = Some (Scalar (SStr tag_ref)) /\
   truthy (Scalar (SStr tag_ref)) = true) /\
  get_uses_statements malformed_step_world ci_yml = ([], Raised (AttributeError 59)).
Proof. repeat split; reflexivity. Qed.
